(** * NYTimesSource: the batching loader of [loaderPlugin.py]

    A shallow embedding of the class [NYTimesSource] of [src/loaderPlugin.py]:
    the helpers [getn] and [flatten], the generator [getDataBatch] with the
    URL it requests, [getSchema] and the loop at the end of the file that
    prints the batches, with the properties of the specification and further
    properties of the code stated over them.

    Conventions of the embedding.
    - Decoded JSON is the type [value]; a Python [dict] is the list of its
      items in insertion order ([dict]), keys being unique in a real
      dictionary ([wf_dict]).  Booleans and floats do not occur in the
      claims and are left out of [scalar].
    - A [collections.deque] is the list of its elements read from its RIGHT
      end: [q.append(x)] is [x :: q] and [q.pop()] removes the head.  The
      left end (the front of the queue, the oldest element) is the last
      element of the list; [deque_items] gives the usual left-to-right view.
    - Exceptions are values of [exn]; code that can raise returns a [res].
    - The generator is driven by the list of the decoded responses that
      [requests.get] returns, one per loop iteration; [run] gives the trace of
      the requests, prints, sleeps and yields, and how the loop ended. *)

From Stdlib Require Import List String Ascii ZArith Lia Bool Arith Permutation.
From Stdlib Require Finite.
From Stdlib Require Decimal DecimalString DecimalPos DecimalZ.
Import ListNotations.
Open Scope string_scope.
Open Scope list_scope.
Open Scope Z_scope.

(** ** Decoded JSON and Python dictionaries *)

Inductive scalar : Type :=
| SStr (s : string)
| SNum (z : Z)
| SNull.

#[warnings="-register-all"]
Inductive value : Type :=
| VScalar (s : scalar)
| VList (l : list value)
| VDict (d : list (string * value)).

Definition dict : Type := list (string * value).

Definition scalar_eq_dec (a b : scalar) : {a = b} + {a <> b}.
Proof.
  decide equality; [apply string_dec | apply Z.eq_dec].
Defined.

(** [d.get(k)] *)
Fixpoint get (d : dict) (k : string) : option value :=
  match d with
  | [] => None
  | (k', v) :: rest => if String.eqb k' k then Some v else get rest k
  end.

(** [d[k] = v]: an existing key keeps its position, a new one goes last. *)
Fixpoint set_item (d : dict) (k : string) (v : value) : dict :=
  match d with
  | [] => [(k, v)]
  | (k', v') :: rest =>
      if String.eqb k' k then (k', v) :: rest else (k', v') :: set_item rest k v
  end.

(** [dict(items)] *)
Definition dict_of_items (items : list (string * value)) : dict :=
  fold_left (fun d kv => set_item d (fst kv) (snd kv)) items [].

Definition keys (d : dict) : list string := map fst d.

(** The truth value of a string: non-empty. *)
Definition truthy (s : string) : bool :=
  match s with
  | EmptyString => false
  | String _ _ => true
  end.

(** ** Exceptions *)

Inductive index_error : Type :=
| ListIndexOutOfRange
| PopFromEmptyDeque.

Inductive exn : Type :=
| KeyError (k : string)
| TypeError
| IndexError (what : index_error).

Inductive res (A : Type) : Type :=
| Ok (a : A)
| Raise (e : exn).
Arguments Ok {A} a.
Arguments Raise {A} e.

Definition bind {A B : Type} (m : res A) (f : A -> res B) : res B :=
  match m with
  | Ok a => f a
  | Raise e => Raise e
  end.

Notation "x <- m ;; k" := (bind m (fun x => k))
  (at level 61, m at next level, right associativity).

(** ** [getn] *)

Definition deque : Type := list dict.

(** [list(q)]: the elements from the left end to the right end. *)
Definition deque_items (q : deque) : list dict := rev q.

(** [q.pop()] *)
Definition pop (q : deque) : res (dict * deque) :=
  match q with
  | [] => Raise (IndexError PopFromEmptyDeque)
  | x :: q' => Ok (x, q')
  end.

(** [while len(result) < n: result.append(q.pop())] *)
Fixpoint getn_while (q : deque) (result : list dict) (n : Z)
  : res (list dict * deque) :=
  if Z.of_nat (List.length result) <? n then
    match q with
    | [] => Raise (IndexError PopFromEmptyDeque)
    | x :: q' => getn_while q' (result ++ [x]) n
    end
  else Ok (result, q).

Definition getn (q : deque) (n : Z) : res (list dict * deque) :=
  xq <- pop q ;;
  getn_while (snd xq) [fst xq] n.

(** ** [flatten] *)

Definition new_key_of (parent_key k : string) : string :=
  if truthy parent_key then (parent_key ++ "." ++ k)%string else k.

(** The body of the [for k, v in d.items()] loop, given the function of the
    recursive call: the list [items]. *)
Definition flatten_loop (self_flatten : value -> string -> dict)
  (parent_key : string) : dict -> list (string * value) :=
  fix loop (d : dict) : list (string * value) :=
    match d with
    | [] => []
    | (k, v) :: rest =>
        let new_key := new_key_of parent_key k in
        match v with
        | VDict _ => self_flatten v new_key ++ loop rest
        | _ => (new_key, v) :: loop rest
        end
    end.

Fixpoint flatten_value (v : value) (parent_key : string) {struct v} : dict :=
  match v with
  | VDict d => dict_of_items (flatten_loop flatten_value parent_key d)
  | _ => []
  end.

(** [self.flatten(d, parent_key)] *)
Definition flatten (d : dict) (parent_key : string) : dict :=
  flatten_value (VDict d) parent_key.

(** The list [items] that [flatten] builds before [dict(items)]. *)
Definition flatten_items (d : dict) (parent_key : string)
  : list (string * value) :=
  flatten_loop flatten_value parent_key d.

(** ** [getDataBatch] *)

(** The decoded body of one response: [{"fault": ...}] (any body whose
    ["fault"] entry is present and not null), or
    [{"status": ..., "response": {"meta": {"hits": ...}, "docs": [...]}}]. *)
Inductive response : Type :=
| Fault (fault : value)
| Reply (status : string) (hits : Z) (docs : list dict).

(** The local variables of the generator. *)
Record state : Type := mkState {
  current_date_lower_bound : value;
  page_num : Z;
  article_id_set : list scalar;
  q : deque
}.

Definition initial_state : state :=
  mkState (VScalar (SStr "0000-01-01")) 0 [] [].

Inductive message : Type :=
| MsgFault (fault : value)
| MsgError
| MsgEndOfResults.

Inductive event : Type :=
| EGet (date_lower_bound : value) (page : Z)
| EPrint (m : message)
| ESleep (seconds : Z)
| EYield (batch : list dict).

(** How one iteration of [while True] ends. *)
Inductive control : Type :=
| Continue (st : state)
| Break
| Abort (e : exn).

(** [x in article_id_set] *)
Definition in_set (x : scalar) (s : list scalar) : bool :=
  if in_dec scalar_eq_dec x s then true else false.

(** [doc['_id']] as an element of a set: lists and dictionaries are not
    hashable. *)
Definition doc_id (doc : dict) : res scalar :=
  match get doc "_id" with
  | None => Raise (KeyError "_id")
  | Some (VScalar s) => Ok s
  | Some _ => Raise TypeError
  end.

(** [for doc in response_json['response']['docs']: ...] *)
Fixpoint add_docs (docs : list dict) (ids : list scalar) (q : deque)
  : res (list scalar * deque) :=
  match docs with
  | [] => Ok (ids, q)
  | doc :: rest =>
      i <- doc_id doc ;;
      if negb (in_set i ids)
      then add_docs rest (i :: ids) (flatten doc "" :: q)
      else add_docs rest ids q
  end.

(** [docs[-1]] *)
Fixpoint last_item (docs : list dict) : res dict :=
  match docs with
  | [] => Raise (IndexError ListIndexOutOfRange)
  | [doc] => Ok doc
  | _ :: rest => last_item rest
  end.

(** [v[:10]] *)
Definition slice10 (v : value) : res value :=
  match v with
  | VScalar (SStr s) => Ok (VScalar (SStr (substring 0 10 s)))
  | VList l => Ok (VList (firstn 10 l))
  | _ => Raise TypeError
  end.

(** [response_json['response']['docs'][-1]['pub_date'][:10]] *)
Definition last_pub_date (docs : list dict) : res value :=
  doc <- last_item docs ;;
  match get doc "pub_date" with
  | None => Raise (KeyError "pub_date")
  | Some v => slice10 v
  end.

Definition page_ceiling : Z := 100.
Definition cooldown : Z := 12.

(** One iteration of the [while True] loop, given the decoded response. *)
Definition iteration (batch_size : Z) (st : state) (response_json : response)
  : list event * control :=
  let request := EGet (current_date_lower_bound st) (page_num st) in
  match response_json with
  | Fault f => ([request; EPrint (MsgFault f); ESleep cooldown], Continue st)
  | Reply status hits docs =>
      if String.eqb status "ERROR" then ([request; EPrint MsgError], Break)
      else if hits =? 0 then ([request; EPrint MsgEndOfResults], Break)
      else
        match add_docs docs (article_id_set st) (q st) with
        | Raise e => ([request], Abort e)
        | Ok (ids, q1) =>
            let page1 := page_num st + 1 in
            match (if page1 >=? page_ceiling
                   then d <- last_pub_date docs ;; Ok (d, 0)
                   else Ok (current_date_lower_bound st, page1)) with
            | Raise e => ([request], Abort e)
            | Ok (date, page2) =>
                if Z.of_nat (List.length q1) >=? batch_size then
                  match getn q1 batch_size with
                  | Raise e => ([request], Abort e)
                  | Ok (batch, q2) =>
                      ([request; EYield batch; ESleep cooldown],
                       Continue (mkState date page2 ids q2))
                  end
                else
                  ([request; ESleep cooldown],
                   Continue (mkState date page2 ids q1))
            end
        end
  end.

(** How the generator stands after the responses received so far. *)
Inductive outcome : Type :=
| Running (st : state)
| Exhausted
| Aborted (e : exn).

(** The generator driven through the responses of [script], in order. *)
Fixpoint run (batch_size : Z) (script : list response) (st : state)
  : list event * outcome :=
  match script with
  | [] => ([], Running st)
  | r :: rest =>
      match iteration batch_size st r with
      | (evs, Continue st') =>
          let (evs', o) := run batch_size rest st' in (evs ++ evs', o)
      | (evs, Break) => (evs, Exhausted)
      | (evs, Abort e) => (evs, Aborted e)
      end
  end.

(** [getDataBatch(batch_size)] from its first line on. *)
Definition getDataBatch (batch_size : Z) (script : list response)
  : list event * outcome :=
  run batch_size script initial_state.

(** The batches the consumer receives. *)
Fixpoint batches (evs : list event) : list (list dict) :=
  match evs with
  | [] => []
  | EYield b :: rest => b :: batches rest
  | _ :: rest => batches rest
  end.

Fixpoint sleeps (evs : list event) : list Z :=
  match evs with
  | [] => []
  | ESleep s :: rest => s :: sleeps rest
  | _ :: rest => sleeps rest
  end.

Fixpoint requests (evs : list event) : list (value * Z) :=
  match evs with
  | [] => []
  | EGet d p :: rest => (d, p) :: requests rest
  | _ :: rest => requests rest
  end.

(** The number of records [getn] takes for a requested size [n]. *)
Definition taken (n : Z) : nat := Z.to_nat (Z.max 1 n).

(** ** Induction on nested mappings *)

Section DictInduction.

Variable P : dict -> Prop.
Hypothesis P_nil : P [].
Hypothesis P_scalar : forall k s rest, P rest -> P ((k, VScalar s) :: rest).
Hypothesis P_list : forall k l rest, P rest -> P ((k, VList l) :: rest).
Hypothesis P_dict :
  forall k sub rest, P sub -> P rest -> P ((k, VDict sub) :: rest).

Fixpoint dict_value_ind (v : value)
  : match v with VDict d => P d | _ => True end :=
  match v with
  | VDict d =>
      (fix entries (d : list (string * value)) : P d :=
         match d with
         | [] => P_nil
         | (k, v') :: rest =>
             match v' as v0
                   return match v0 with VDict d0 => P d0 | _ => True end ->
                          P ((k, v0) :: rest) with
             | VScalar s => fun _ => P_scalar k s rest (entries rest)
             | VList l => fun _ => P_list k l rest (entries rest)
             | VDict sub => fun H => P_dict k sub rest H (entries rest)
             end (dict_value_ind v')
         end) d
  | _ => I
  end.

(** Induction on a mapping, with the hypothesis for the mappings under its
    keys as well as for the remaining entries. *)
Definition dict_nested_ind (d : dict) : P d := dict_value_ind (VDict d).

End DictInduction.

(** ** Keys and paths *)

Definition is_dot (c : ascii) : bool := Ascii.eqb c ".".

Fixpoint has_dot (s : string) : bool :=
  match s with
  | EmptyString => false
  | String c s' => is_dot c || has_dot s'
  end.

(** ** Nested mappings *)

(** ['.'.join(path)] *)
Fixpoint join_dot (path : list string) : string :=
  match path with
  | [] => ""
  | k :: rest =>
      match rest with
      | [] => k
      | _ :: _ => (k ++ "." ++ join_dot rest)%string
      end
  end.

(** [key.split('.')] *)
Fixpoint split_dot (key : string) : list string :=
  match key with
  | EmptyString => [EmptyString]
  | String c key' =>
      if is_dot c then EmptyString :: split_dot key'
      else match split_dot key' with
           | w :: ws => String c w :: ws
           | [] => [String c EmptyString]
           end
  end.

(** A path that [split_dot] gives back: not empty, no dot in its keys. *)
Definition good_path (path : list string) : Prop :=
  path <> [] /\ forallb (fun k => negb (has_dot k)) path = true.

(** The leaves of a nested mapping, in the order of [items()], each with the
    path of keys from the root; a leaf is any value that is not a mapping. *)
Fixpoint leaves_value (v : value) : list (list string * value) :=
  match v with
  | VDict d =>
      (fix entries (d : list (string * value)) : list (list string * value) :=
         match d with
         | [] => []
         | (k, v') :: rest =>
             match v' with
             | VDict _ =>
                 map (fun pv => (k :: fst pv, snd pv)) (leaves_value v')
             | _ => [([k], v')]
             end ++ entries rest
         end) d
  | _ => []
  end.

Definition leaves (d : dict) : list (list string * value) :=
  leaves_value (VDict d).

(** [every_entry P v]: [P k v' rest] holds of every entry [(k, v')] followed
    by the entries [rest], in [v] and in the mappings nested in it. *)
Fixpoint every_entry (P : string -> value -> dict -> bool) (v : value) : bool :=
  match v with
  | VDict d =>
      (fix entries (d : list (string * value)) : bool :=
         match d with
         | [] => true
         | (k, v') :: rest => P k v' rest && every_entry P v' && entries rest
         end) d
  | _ => true
  end.

(** The keys of every mapping are distinct, as in any Python dictionary. *)
Definition wf_dict (d : dict) : bool :=
  every_entry (fun k _ rest => negb (existsb (String.eqb k) (keys rest)))
              (VDict d).

(** No key, at any depth, contains a dot. *)
Definition dot_free (d : dict) : bool :=
  every_entry (fun k _ _ => negb (has_dot k)) (VDict d).

(** No key, at any depth, has an empty mapping as its value. *)
Definition no_empty_branch (d : dict) : bool :=
  every_entry (fun _ v _ => match v with VDict [] => false | _ => true end)
              (VDict d).

(** The re-nesting of the specification (8.2), which is not code of the
    repository: [insert_path path v d] sets the leaf [v] at [path] in [d],
    creating the mappings on the way. *)
Fixpoint insert_path (path : list string) (v : value) (d : dict) : dict :=
  match path with
  | [] => d
  | k :: rest =>
      match rest with
      | [] => set_item d k v
      | _ :: _ =>
          set_item d k
            (VDict (insert_path rest v
                      match get d k with
                      | Some (VDict sub) => sub
                      | _ => []
                      end))
      end
  end.

(** Re-nesting a flat mapping: every key is split on ['.'] and its value
    set at the path obtained, in the order of the entries. *)
Definition spec_renest (flat : dict) : dict :=
  fold_left (fun acc kv => insert_path (split_dot (fst kv)) (snd kv) acc)
            flat [].

(** Setting the leaves of [ls] in [acc], in order. *)
Definition build (ls : list (list string * value)) (acc : dict) : dict :=
  fold_left (fun acc pv => insert_path (fst pv) (snd pv) acc) ls acc.



(** [drops_empty d d']: [d'] is [d] without one key whose value is an empty
    mapping, at the top or at any depth. *)
Inductive drops_empty : dict -> dict -> Prop :=
| drop_here (d1 : dict) (k : string) (d2 : dict) :
    drops_empty (d1 ++ (k, VDict []) :: d2) (d1 ++ d2)
| drop_under (d1 : dict) (k : string) (sub sub' : dict) (d2 : dict) :
    drops_empty sub sub' ->
    drops_empty (d1 ++ (k, VDict sub) :: d2) (d1 ++ (k, VDict sub') :: d2).

(** ** Provenance of records *)

Definition docs_of (r : response) : list dict :=
  match r with
  | Reply _ _ docs => docs
  | Fault _ => []
  end.

(** Every document the responses of [script] carry. *)
Definition fetched (script : list response) : list dict :=
  flat_map docs_of script.

(** The record [r] is the flattening of a document of [pool] whose id is
    [i]. *)
Definition delivers (pool : list dict) (r : dict) (i : scalar) : Prop :=
  exists doc, In doc pool /\ doc_id doc = Ok i /\ r = flatten doc "".

(** The id a consumer reads off a record. *)
Definition record_id (r : dict) : option value := get r "_id".

(** The keys of a dictionary are distinct. *)
Fixpoint unique_keys (d : dict) : bool :=
  match d with
  | [] => true
  | (k, _) :: rest => negb (existsb (String.eqb k) (keys rest)) && unique_keys rest
  end.

(** No mapping sits under the empty key at the top of [d]. *)
Definition named_branches (d : dict) : bool :=
  forallb (fun kv => match snd kv with
                     | VDict _ => truthy (fst kv)
                     | _ => true
                     end) d.

(** A document as [json.loads] gives it and the provider shapes it: distinct
    keys, no mapping under the empty key. *)
Definition plain_doc (d : dict) : bool := unique_keys d && named_branches d.

(** The invariant of the loop: the buffered records and the records yielded
    so far come from documents with pairwise distinct ids, all in the seen
    set. *)
Definition dedup_inv (pool : list dict) (emitted : list dict) (st : state)
  : Prop :=
  exists ids_q ids_e,
    Forall2 (delivers pool) (q st) ids_q /\
    Forall2 (delivers pool) emitted ids_e /\
    NoDup (ids_q ++ ids_e) /\
    incl (ids_q ++ ids_e) (article_id_set st).

(** ** Pages of documents *)

Definition has_id (doc : dict) : bool :=
  match doc_id doc with
  | Ok _ => true
  | Raise _ => false
  end.




(** ** Sample data *)

(** A document shaped like the provider's: an id, a publication date and a
    nested headline. *)
Definition article (id date : string) : dict :=
  [("_id", VScalar (SStr id));
   ("pub_date", VScalar (SStr date));
   ("headline", VDict [("main", VScalar (SStr "headline of the article"))])].

Definition doc_a : dict := article "a" "2021-08-01T10:00:00+0000".
Definition doc_b : dict := article "b" "2021-08-02T11:00:00+0000".
Definition doc_c : dict := article "c" "2021-08-03T12:00:00+0000".
Definition doc_d : dict := article "d" "2021-08-04T13:00:00+0000".

(** A document with mappings two levels deep, a list and an empty key. *)
Definition nested_doc : dict :=
  [("_id", VScalar (SStr "n"));
   ("headline",
    VDict [("main", VScalar (SStr "m"));
           ("kicker", VDict [("text", VScalar (SStr "t"));
                             ("", VScalar SNull)])]);
   ("keywords", VList [VScalar (SStr "x"); VDict []]);
   ("word_count", VScalar (SNum 120));
   ("", VScalar (SStr "e"))].

(** A mapping with a dot in a key, and one with a mapping under the empty
    key. *)
Definition dotted_key_doc : dict := [("a.b", VScalar (SNum 1))].
Definition empty_key_doc : dict := [("", VDict [("a", VScalar (SNum 1))])].

(** The events of [fs] faults in a row met in state [st]. *)
Definition fault_events (st : state) (fs : list value) : list event :=
  flat_map (fun f => [EGet (current_date_lower_bound st) (page_num st);
                      EPrint (MsgFault f); ESleep cooldown]) fs.

(** ** The rest of the class and its caller *)

(** [getSchema()] *)
Definition getSchema : list string :=
  ["title"; "body"; "created_at"; "id"; "summary"; "abstract"; "keywords"].

(** [not isinstance(v, MutableMapping)] *)
Definition is_leaf (v : value) : bool :=
  match v with
  | VDict _ => false
  | _ => true
  end.

(** The documents of [docs] that the [for doc in docs] loop buffers when the
    seen set is [seen]: those whose id was not seen before, in order. *)
Fixpoint new_docs (seen : list scalar) (docs : list dict) : list dict :=
  match docs with
  | [] => []
  | doc :: rest =>
      match doc_id doc with
      | Ok i =>
          if in_set i seen then new_docs seen rest
          else doc :: new_docs (i :: seen) rest
      | Raise _ => new_docs seen rest
      end
  end.

(** [paced_from slept evs]: in [evs] every request comes after a sleep of at
    least [cooldown] seconds since the request before it; [slept] tells
    whether such a sleep precedes [evs]. *)
Fixpoint paced_from (slept : bool) (evs : list event) : bool :=
  match evs with
  | [] => true
  | EGet _ _ :: rest => slept && paced_from false rest
  | ESleep s :: rest => paced_from (slept || (cooldown <=? s)) rest
  | _ :: rest => paced_from slept rest
  end.

(** 1 for a loop that has stopped, whose last request is followed by no
    sleep. *)
Definition stopped (o : outcome) : nat :=
  match o with
  | Running _ => 0
  | _ => 1
  end.

Definition is_reply (r : response) : bool :=
  match r with
  | Reply _ _ _ => true
  | Fault _ => false
  end.

(** The lines the loop at the end of the file prints, with the values the
    f-strings show. *)
Inductive line : Type :=
| LBatch (number : Z) (items : Z)
| LItem (id headline : value).

(** [item[k]] *)
Definition getitem (item : dict) (k : string) : res value :=
  match get item k with
  | Some v => Ok v
  | None => Raise (KeyError k)
  end.

(** [for item in batch: print(f"  - {item['_id']} - {item['headline.main']}")]:
    the lines printed and the exception that cut the loop short, if any. *)
Fixpoint print_items (batch : list dict) : list line * option exn :=
  match batch with
  | [] => ([], None)
  | item :: rest =>
      match getitem item "_id" with
      | Raise e => ([], Some e)
      | Ok i =>
          match getitem item "headline.main" with
          | Raise e => ([], Some e)
          | Ok h =>
              let (ls, o) := print_items rest in (LItem i h :: ls, o)
          end
      end
  end.

(** [for idx, batch in enumerate(...)] from index [idx] on, over the batches
    the generator yields. *)
Fixpoint main_loop (idx : Z) (bs : list (list dict)) : list line * option exn :=
  match bs with
  | [] => ([], None)
  | batch :: rest =>
      let header := LBatch (idx + 1) (Z.of_nat (List.length batch)) in
      match print_items batch with
      | (ls, Some e) => (header :: ls, Some e)
      | (ls, None) =>
          let (ls', o) := main_loop (idx + 1) rest in
          (header :: ls ++ ls', o)
      end
  end.

Definition is_header (l : line) : bool :=
  match l with
  | LBatch _ _ => true
  | LItem _ _ => false
  end.


(** ** The request *)

(** [self.args] *)
Record arguments : Type := mkArguments {
  generic_api_url : string;
  query : string;
  APP_KEY : string;
  sort : string
}.

(** [str(n)] for an integer: its decimal digits, after a minus sign when it
    is negative. *)
Definition str_of_int (n : Z) : string :=
  DecimalString.NilZero.string_of_int (Z.to_int n).

(** ['pub_date:>={}'.format(current_date_lower_bound)] for a date bound that
    is a string, as the initial one and every slice of a string date are. *)
Definition filter_query (date : string) : string :=
  ("pub_date:>=" ++ date)%string.

(** The URL of the request, for a date bound that is a string. *)
Definition parameterised_api_url (args : arguments) (date : string) (page : Z)
  : string :=
  (generic_api_url args ++ "?q=" ++ query args
   ++ "&api-key=" ++ APP_KEY args
   ++ "&sort=" ++ sort args
   ++ "&fq=" ++ filter_query date
   ++ "&page=" ++ str_of_int page)%string.

Fixpoint has_amp (s : string) : bool :=
  match s with
  | EmptyString => false
  | String c s' => Ascii.eqb c "&" || has_amp s'
  end.

(** The arguments of the run at the end of the file, with a key in place of
    the one read from the configuration file. *)
Definition main_args : arguments :=
  mkArguments "https://api.nytimes.com/svc/search/v2/articlesearch.json"
              "Silicon Valley" "KEY" "oldest".

(** Every document of [docs] has an id, and an id that is new when the
    document comes: not in [seen], and not that of a document before it. *)
Fixpoint fresh_ids (seen : list scalar) (docs : list dict) : bool :=
  match docs with
  | [] => true
  | doc :: rest =>
      match doc_id doc with
      | Ok i => negb (in_set i seen) && fresh_ids (i :: seen) rest
      | Raise _ => false
      end
  end.

(** The body of a fault response of the provider. *)
Definition sample_fault : value :=
  VDict [("faultstring", VScalar (SStr "Rate limit quota violation"));
         ("detail",
          VDict [("errorcode",
                  VScalar (SStr "policies.ratelimit.QuotaViolation"))])].

(** A page of ten documents with ten ids, and one of five. *)
Definition ten_docs : list dict :=
  map (fun i => article i "2021-08-05T09:00:00+0000")
      ["1"; "2"; "3"; "4"; "5"; "6"; "7"; "8"; "9"; "10"].

Definition five_docs : list dict := firstn 5 ten_docs.

(** * Properties *)

(** ** Lists of events and runs *)

Lemma batches_app (e1 e2 : list event) :
  batches (e1 ++ e2) = batches e1 ++ batches e2.
Proof.
  induction e1 as [|[d p|m|s|b] e1 IH]; simpl; rewrite ?IH; reflexivity.
Qed.

Lemma sleeps_app (e1 e2 : list event) :
  sleeps (e1 ++ e2) = sleeps e1 ++ sleeps e2.
Proof.
  induction e1 as [|[d p|m|s|b] e1 IH]; simpl; rewrite ?IH; reflexivity.
Qed.

Lemma requests_app (e1 e2 : list event) :
  requests (e1 ++ e2) = requests e1 ++ requests e2.
Proof.
  induction e1 as [|[d p|m|s|b] e1 IH]; simpl; rewrite ?IH; reflexivity.
Qed.

(** Running through [s1 ++ s2] is running through [s1] and, when the loop is
    still going, through [s2] from the state reached. *)
Lemma run_app (bs : Z) (s1 s2 : list response) :
  forall st,
    run bs (s1 ++ s2) st =
    match run bs s1 st with
    | (e1, Running st1) =>
        let (e2, o) := run bs s2 st1 in (e1 ++ e2, o)
    | (e1, o) => (e1, o)
    end.
Proof.
  induction s1 as [|r s1 IH]; intros st; simpl.
  - destruct (run bs s2 st); reflexivity.
  - destruct (iteration bs st r) as [evs [st'| |e]]; try reflexivity.
    rewrite IH. destruct (run bs s1 st') as [e1 [st1| |e]]; try reflexivity.
    destruct (run bs s2 st1) as [e2 o]. rewrite app_assoc. reflexivity.
Qed.

(** ** [getn] *)

Lemma getn_while_ok :
  forall (q0 : deque) (result : list dict) (n : Z),
    (Z.to_nat (n - Z.of_nat (List.length result)) <= List.length q0)%nat ->
    getn_while q0 result n =
    Ok (result ++ firstn (Z.to_nat (n - Z.of_nat (List.length result))) q0,
        skipn (Z.to_nat (n - Z.of_nat (List.length result))) q0).
Proof.
  induction q0 as [|x q0 IH]; intros result n Hk; simpl in *.
  - assert (Hz : Z.to_nat (n - Z.of_nat (List.length result)) = 0%nat) by lia.
    rewrite Hz. simpl. rewrite app_nil_r.
    destruct (Z.ltb_spec (Z.of_nat (List.length result)) n); [lia | reflexivity].
  - destruct (Z.ltb_spec (Z.of_nat (List.length result)) n) as [Hlt|Hge].
    + assert (Hs : Z.to_nat (n - Z.of_nat (List.length result)) =
                   S (Z.to_nat (n - Z.of_nat (List.length (result ++ [x]))))).
      { rewrite length_app. simpl. lia. }
      rewrite Hs in *. rewrite IH by lia. simpl.
      rewrite <- app_assoc. reflexivity.
    + assert (Hz : Z.to_nat (n - Z.of_nat (List.length result)) = 0%nat) by lia.
      rewrite Hz. simpl. rewrite app_nil_r. reflexivity.
Qed.

Lemma getn_while_raises :
  forall (q0 : deque) (result : list dict) (n : Z),
    (List.length q0 < Z.to_nat (n - Z.of_nat (List.length result)))%nat ->
    getn_while q0 result n = Raise (IndexError PopFromEmptyDeque).
Proof.
  induction q0 as [|x q0 IH]; intros result n Hk; simpl in *.
  - destruct (Z.ltb_spec (Z.of_nat (List.length result)) n); [reflexivity | lia].
  - destruct (Z.ltb_spec (Z.of_nat (List.length result)) n); [| lia].
    apply IH. rewrite length_app. simpl. lia.
Qed.

(** With at least [n] records in a non-empty queue, [getn] takes the
    [taken n] records at the right end, the last appended first. *)
Lemma getn_ok (q0 : deque) (n : Z) :
  q0 <> [] -> n <= Z.of_nat (List.length q0) ->
  getn q0 n = Ok (firstn (taken n) q0, skipn (taken n) q0).
Proof.
  intros Hne Hle. destruct q0 as [|x q0]; [congruence|].
  unfold getn, taken. simpl pop. simpl bind. simpl List.length in Hle.
  rewrite getn_while_ok by (simpl; lia).
  simpl List.length.
  replace (Z.to_nat (Z.max 1 n)) with (S (Z.to_nat (n - Z.of_nat 1))) by lia.
  reflexivity.
Qed.

Lemma getn_empty (n : Z) : getn [] n = Raise (IndexError PopFromEmptyDeque).
Proof. reflexivity. Qed.

Lemma taken_le (q0 : deque) (n : Z) :
  q0 <> [] -> n <= Z.of_nat (List.length q0) ->
  (taken n <= List.length q0)%nat.
Proof.
  intros Hne Hle. unfold taken. destruct q0; [congruence|].
  simpl List.length in *. lia.
Qed.

(** What a yielding step of the loop does to the queue. *)
Lemma getn_inv (q0 : deque) (n : Z) (batch : list dict) (q2 : deque) :
  (Z.of_nat (List.length q0) >=? n) = true ->
  getn q0 n = Ok (batch, q2) ->
  batch = firstn (taken n) q0 /\ q2 = skipn (taken n) q0 /\
  (taken n <= List.length q0)%nat.
Proof.
  intros Hge Hget. apply Z.geb_le in Hge.
  destruct q0 as [|x q0]; [discriminate|].
  rewrite getn_ok in Hget by first [congruence | assumption].
  inversion Hget; subst. repeat split.
  apply taken_le; [congruence | assumption].
Qed.

(** ** One iteration of the loop *)

(** An iteration that goes on to the next request after a reply: the
    documents were added, the page cursor and the date bound were advanced,
    and at most one batch was yielded. *)
Lemma iteration_continue_inv
  (bs : Z) (st : state) (status : string) (hits : Z) (docs : list dict)
  (evs : list event) (st' : state) :
  iteration bs st (Reply status hits docs) = (evs, Continue st') ->
  status <> "ERROR" /\ hits <> 0 /\
  exists ids q1,
    add_docs docs (article_id_set st) (q st) = Ok (ids, q1) /\
    article_id_set st' = ids /\
    (page_ceiling <= page_num st + 1 ->
     last_pub_date docs = Ok (current_date_lower_bound st') /\
     page_num st' = 0) /\
    (page_num st + 1 < page_ceiling ->
     current_date_lower_bound st' = current_date_lower_bound st /\
     page_num st' = page_num st + 1) /\
    let request := EGet (current_date_lower_bound st) (page_num st) in
    ((bs <= Z.of_nat (List.length q1) /\
      evs = [request; EYield (firstn (taken bs) q1); ESleep cooldown] /\
      q st' = skipn (taken bs) q1 /\
      (taken bs <= List.length q1)%nat)
     \/
     (Z.of_nat (List.length q1) < bs /\
      evs = [request; ESleep cooldown] /\
      q st' = q1)).
Proof.
  unfold iteration. intros H.
  destruct (String.eqb_spec status "ERROR") as [|Hs]; [discriminate|].
  destruct (Z.eqb_spec hits 0) as [|Hh]; [discriminate|].
  split; [assumption|]. split; [assumption|].
  destruct (add_docs docs (article_id_set st) (q st)) as [[ids q1]|e];
    [|discriminate].
  exists ids, q1. split; [reflexivity|].
  destruct (Z.geb_spec (page_num st + 1) page_ceiling) as [Hp|Hp].
  - destruct (last_pub_date docs) as [d|e]; simpl in H; [|discriminate].
    destruct (Z.of_nat (List.length q1) >=? bs) eqn:Hlen.
    + destruct (getn q1 bs) as [[batch q2]|e] eqn:Hget; [|discriminate].
      destruct (getn_inv _ _ _ _ Hlen Hget) as (-> & -> & Hm).
      inversion H; subst; simpl.
      repeat split; try reflexivity; try lia.
      left. apply Z.geb_le in Hlen. repeat split; try assumption.
    + inversion H; subst; simpl.
      repeat split; try reflexivity; try lia.
      right. rewrite Z.geb_leb in Hlen. apply Z.leb_gt in Hlen.
      repeat split; assumption.
  - destruct (Z.of_nat (List.length q1) >=? bs) eqn:Hlen.
    + destruct (getn q1 bs) as [[batch q2]|e] eqn:Hget; [|discriminate].
      destruct (getn_inv _ _ _ _ Hlen Hget) as (-> & -> & Hm).
      inversion H; subst; simpl.
      repeat split; try reflexivity; try lia.
      left. apply Z.geb_le in Hlen. repeat split; try assumption.
    + inversion H; subst; simpl.
      repeat split; try reflexivity; try lia.
      right. rewrite Z.geb_leb in Hlen. apply Z.leb_gt in Hlen.
      repeat split; assumption.
Qed.

(** A fault leaves every local variable as it was. *)
Lemma iteration_fault (bs : Z) (st : state) (f : value) :
  iteration bs st (Fault f) =
  ([EGet (current_date_lower_bound st) (page_num st);
    EPrint (MsgFault f); ESleep cooldown], Continue st).
Proof. reflexivity. Qed.

(** Every batch an iteration yields has [taken bs] records, and an iteration
    yields at most one. *)
Lemma iteration_batches (bs : Z) (st : state) (r : response) :
  (List.length (batches (fst (iteration bs st r))) <= 1)%nat /\
  Forall (fun b => List.length b = taken bs)
         (batches (fst (iteration bs st r))).
Proof.
  destruct (iteration bs st r) as [evs c] eqn:Hit. simpl.
  destruct r as [f|status hits docs].
  - rewrite iteration_fault in Hit. inversion Hit; subst. simpl.
    split; [lia | constructor].
  - destruct c as [st'| |e].
    + apply iteration_continue_inv in Hit.
      destruct Hit as (_ & _ & ids & q1 & _ & _ & _ & _ & Hy).
      destruct Hy as [(_ & -> & _ & Hm) | (_ & -> & _)]; simpl.
      * split; [lia|]. constructor; [|constructor].
        apply firstn_length_le. exact Hm.
      * split; [lia | constructor].
    + unfold iteration in Hit.
      destruct (String.eqb status "ERROR");
        [inversion Hit; subst; simpl; split; [lia | constructor]|].
      destruct (hits =? 0);
        [inversion Hit; subst; simpl; split; [lia | constructor]|].
      destruct (add_docs docs (article_id_set st) (q st)) as [[ids q1]|e];
        [|discriminate].
      destruct (if page_num st + 1 >=? page_ceiling
                then d <- last_pub_date docs;; Ok (d, 0)
                else Ok (current_date_lower_bound st, page_num st + 1))
        as [[d p]|e]; [|discriminate].
      destruct (Z.of_nat (List.length q1) >=? bs); [|discriminate].
      destruct (getn q1 bs) as [[b q2]|e]; discriminate.
    + assert (Hev : batches evs = []).
      { unfold iteration in Hit.
        destruct (String.eqb status "ERROR"); [discriminate|].
        destruct (hits =? 0); [discriminate|].
        destruct (add_docs docs (article_id_set st) (q st)) as [[ids q1]|e'];
          [|inversion Hit; reflexivity].
        destruct (if page_num st + 1 >=? page_ceiling
                  then d <- last_pub_date docs;; Ok (d, 0)
                  else Ok (current_date_lower_bound st, page_num st + 1))
          as [[d p]|e']; [|inversion Hit; reflexivity].
        destruct (Z.of_nat (List.length q1) >=? bs); [|discriminate].
        destruct (getn q1 bs) as [[b q2]|e']; [discriminate|].
        inversion Hit; reflexivity. }
      rewrite Hev. simpl. split; [lia | constructor].
Qed.

(** ** Batch sizes *)

(** C4: in every run with a requested batch size of at least 1, every batch
    yielded has exactly [batch_size] records, and so has every batch but the
    last. *)
Theorem batch_sizing (batch_size : Z) (script : list response) (st : state) :
  1 <= batch_size ->
  Forall (fun b => Z.of_nat (List.length b) = batch_size)
         (batches (fst (run batch_size script st)))
  /\
  forall earlier last,
    batches (fst (run batch_size script st)) = earlier ++ [last] ->
    Forall (fun b => Z.of_nat (List.length b) = batch_size) earlier.
Proof.
  intros Hbs.
  assert (Hall : Forall (fun b => Z.of_nat (List.length b) = batch_size)
                        (batches (fst (run batch_size script st)))).
  { revert st. induction script as [|r script IH]; intros st; simpl.
    - constructor.
    - destruct (iteration_batches batch_size st r) as [_ Hb].
      destruct (iteration batch_size st r) as [evs [st'| |e]]; simpl in Hb.
      + specialize (IH st'). destruct (run batch_size script st') as [evs' o].
        simpl in *. rewrite batches_app. apply Forall_app. split; [|exact IH].
        eapply Forall_impl; [|exact Hb]. unfold taken. intros b Hl.
        simpl in Hl. lia.
      + simpl. eapply Forall_impl; [|exact Hb]. unfold taken. intros b Hl.
        simpl in Hl. lia.
      + simpl. eapply Forall_impl; [|exact Hb]. unfold taken. intros b Hl.
        simpl in Hl. lia. }
  split; [exact Hall|].
  intros earlier last Heq. rewrite Heq in Hall.
  apply Forall_app in Hall. destruct Hall as [He _]. exact He.
Qed.

Lemma batch_sizing_witness :
  1 <= 2 /\
  batches (fst (run 2 [Reply "OK" 9 [doc_a; doc_b; doc_c];
                       Reply "OK" 9 [doc_d]] initial_state))
  = [[flatten doc_c ""; flatten doc_b ""];
     [flatten doc_d ""; flatten doc_a ""]] /\
  Forall (fun b => Z.of_nat (List.length b) = 2)
         (batches (fst (run 2 [Reply "OK" 9 [doc_a; doc_b; doc_c];
                               Reply "OK" 9 [doc_d]] initial_state))).
Proof.
  assert (H : 1 <= 2) by lia.
  split; [exact H|]. split; [vm_compute; reflexivity|].
  apply (batch_sizing 2 [Reply "OK" 9 [doc_a; doc_b; doc_c];
                         Reply "OK" 9 [doc_d]] initial_state H).
Defined.

(** The bound [1 <= batch_size] is needed: with a requested size of 0 [getn]
    still pops one record before it tests the size, and a batch has one
    record. *)
Lemma zero_batch_size_yields_singletons :
  exists b1 b2,
    batches (fst (getDataBatch 0 [Reply "OK" 3 [doc_a; doc_b];
                                  Reply "OK" 3 [doc_c]])) = [b1; b2] /\
    Z.of_nat (List.length b1) <> 0.
Proof.
  eexists. eexists. split; [vm_compute; reflexivity|]. simpl. lia.
Qed.

(** ** Emission *)

(** C3, as the code has it: an iteration that received documents yields one
    batch when the buffer holds at least [batch_size] records and none
    otherwise; it never yields a second one, whatever is left in the buffer. *)
Theorem emitting_once
  (batch_size : Z) (st : state) (status : string) (hits : Z)
  (docs : list dict) (evs : list event) (st' : state) :
  iteration batch_size st (Reply status hits docs) = (evs, Continue st') ->
  exists ids q1,
    add_docs docs (article_id_set st) (q st) = Ok (ids, q1) /\
    ((batch_size <= Z.of_nat (List.length q1) /\
      batches evs = [firstn (taken batch_size) q1] /\
      q st' = skipn (taken batch_size) q1)
     \/
     (Z.of_nat (List.length q1) < batch_size /\
      batches evs = [] /\
      q st' = q1)).
Proof.
  intros H. apply iteration_continue_inv in H.
  destruct H as (_ & _ & ids & q1 & Hadd & _ & _ & _ & Hy).
  exists ids, q1. split; [exact Hadd|].
  destruct Hy as [(Hle & -> & Hq & _) | (Hlt & -> & Hq)]; [left | right];
    repeat split; assumption.
Qed.

Lemma emitting_once_witness :
  exists evs st',
    iteration 1 initial_state (Reply "OK" 2 [doc_a; doc_b])
    = (evs, Continue st') /\
    exists ids q1,
      add_docs [doc_a; doc_b] (article_id_set initial_state)
               (q initial_state) = Ok (ids, q1) /\
      ((1 <= Z.of_nat (List.length q1) /\
        batches evs = [firstn (taken 1) q1] /\
        q st' = skipn (taken 1) q1)
       \/
       (Z.of_nat (List.length q1) < 1 /\ batches evs = [] /\ q st' = q1)).
Proof.
  eexists. eexists. split; [vm_compute; reflexivity|].
  eapply (emitting_once 1 initial_state "OK" 2 [doc_a; doc_b]).
  vm_compute. reflexivity.
Defined.

(** C3 as stated fails: with two batches' worth of records buffered, the
    iteration yields one batch, and the buffer still holds [batch_size]
    records when the next request is made. *)
Lemma emitting_repeats_counterexample :
  exists ids q1 evs st',
    add_docs [doc_a; doc_b] [] [] = Ok (ids, q1) /\
    2 * 1 <= Z.of_nat (List.length q1) /\
    iteration 1 initial_state (Reply "OK" 2 [doc_a; doc_b])
    = (evs, Continue st') /\
    List.length (batches evs) = 1%nat /\
    ~ Z.of_nat (List.length (q st')) < 1.
Proof.
  do 4 eexists.
  split; [vm_compute; reflexivity|].
  split; [simpl; lia|].
  split; [vm_compute; reflexivity|].
  split; [reflexivity|]. simpl. lia.
Qed.

(** ** Order of emission *)

(** C1, the code at two inputs.  A batch lists the records from the last
    appended to the first: [doc_b] comes before [doc_a].  Across batches, a
    newer record overtakes an older one: with batches of one record,
    [doc_a], fetched first, is still buffered when [doc_b], [doc_c] and
    [doc_d] have been yielded. *)
Theorem getn_pops_newest_first :
  batches (fst (getDataBatch 2 [Reply "OK" 2 [doc_a; doc_b]]))
  = [[flatten doc_b ""; flatten doc_a ""]]
  /\
  exists evs st,
    getDataBatch 1 [Reply "OK" 4 [doc_a; doc_b]; Reply "OK" 4 [doc_c];
                    Reply "OK" 4 [doc_d]] = (evs, Running st) /\
    batches evs = [[flatten doc_b ""]; [flatten doc_c ""]; [flatten doc_d ""]] /\
    deque_items (q st) = [flatten doc_a ""].
Proof.
  split; [vm_compute; reflexivity|].
  eexists. eexists. split; [vm_compute; reflexivity|].
  split; vm_compute; reflexivity.
Qed.

(** ** Faults *)

Lemma run_faults (bs : Z) (fs : list value) (rest : list response) :
  forall st,
    run bs (map Fault fs ++ rest) st =
    (fault_events st fs ++ fst (run bs rest st), snd (run bs rest st)).
Proof.
  induction fs as [|f fs IH]; intros st.
  - simpl. destruct (run bs rest st); reflexivity.
  - change (map Fault (f :: fs) ++ rest)
      with (Fault f :: (map Fault fs ++ rest)).
    cbn [run]. rewrite iteration_fault. rewrite IH. reflexivity.
Qed.

Lemma fault_events_sleeps (st : state) (fs : list value) :
  sleeps (fault_events st fs) = repeat cooldown (List.length fs).
Proof.
  induction fs as [|f fs IH]; simpl; [reflexivity|]. f_equal. exact IH.
Qed.

Lemma fault_events_requests (st : state) (fs : list value) :
  requests (fault_events st fs) =
  repeat (current_date_lower_bound st, page_num st) (List.length fs).
Proof.
  induction fs as [|f fs IH]; simpl; [reflexivity|]. f_equal. exact IH.
Qed.

Lemma fault_events_batches (st : state) (fs : list value) :
  batches (fault_events st fs) = [].
Proof.
  induction fs as [|f fs IH]; simpl; [reflexivity|]. exact IH.
Qed.

(** ** The end of the results *)

Lemma iteration_break
  (bs : Z) (st : state) (status : string) (hits : Z) (docs : list dict) :
  status = "ERROR" \/ hits = 0 ->
  exists m,
    iteration bs st (Reply status hits docs) =
    ([EGet (current_date_lower_bound st) (page_num st); EPrint m], Break).
Proof.
  intros H. unfold iteration.
  destruct (String.eqb_spec status "ERROR") as [Hs|Hs];
    [exists MsgError; reflexivity|].
  destruct H as [H|H]; [contradiction|]. subst hits. simpl.
  exists MsgEndOfResults. reflexivity.
Qed.

(** C7: a reply with status ["ERROR"] or with zero hits ends the generator:
    the run is [Exhausted], not [Aborted], whatever responses would follow,
    and its batches are those yielded before that reply.  When it is the
    first reply, no batch is yielded at all. *)
Theorem terminal_clean
  (batch_size : Z) (pre : list response) (st st1 : state)
  (evs : list event) (status : string) (hits : Z) (docs : list dict)
  (rest : list response) :
  run batch_size pre st = (evs, Running st1) ->
  status = "ERROR" \/ hits = 0 ->
  snd (run batch_size (pre ++ Reply status hits docs :: rest) st) = Exhausted
  /\
  batches (fst (run batch_size (pre ++ Reply status hits docs :: rest) st))
  = batches evs
  /\
  getDataBatch batch_size (Reply status hits docs :: rest)
  = ([EGet (VScalar (SStr "0000-01-01")) 0;
      EPrint (if String.eqb status "ERROR" then MsgError else MsgEndOfResults)],
     Exhausted).
Proof.
  intros Hpre Hend.
  rewrite run_app, Hpre. cbn [run].
  destruct (iteration_break batch_size st1 status hits docs Hend) as [m ->].
  simpl. rewrite batches_app. simpl. rewrite app_nil_r.
  split; [reflexivity|]. split; [reflexivity|].
  unfold getDataBatch. cbn [run]. unfold iteration.
  destruct (String.eqb_spec status "ERROR") as [Hs|Hs]; [reflexivity|].
  destruct Hend as [He|Hh]; [contradiction|].
  subst hits. reflexivity.
Qed.

Lemma terminal_clean_witness :
  run 2 [Reply "OK" 2 [doc_a; doc_b]] initial_state
  = ([EGet (VScalar (SStr "0000-01-01")) 0;
      EYield [flatten doc_b ""; flatten doc_a ""]; ESleep 12],
     Running (mkState (VScalar (SStr "0000-01-01")) 1
                      [SStr "b"; SStr "a"] []))
  /\
  snd (run 2 ([Reply "OK" 2 [doc_a; doc_b]] ++ Reply "OK" 0 [] :: [])
           initial_state) = Exhausted
  /\
  batches (fst (run 2 ([Reply "OK" 2 [doc_a; doc_b]] ++ Reply "OK" 0 [] :: [])
                    initial_state))
  = batches [EGet (VScalar (SStr "0000-01-01")) 0;
             EYield [flatten doc_b ""; flatten doc_a ""]; ESleep 12].
Proof.
  split; [vm_compute; reflexivity|].
  pose proof (terminal_clean 2 [Reply "OK" 2 [doc_a; doc_b]] initial_state
                _ _ "OK" 0 [] [] eq_refl (or_intror eq_refl)) as H.
  destruct H as (H1 & H2 & _). split; [exact H1 | exact H2].
Defined.

(** ** The read of the last document *)

Lemma last_item_nonempty (docs : list dict) :
  docs <> [] -> exists d, last_item docs = Ok d.
Proof.
  induction docs as [|d docs IH]; intros Hne; [congruence|].
  destruct docs as [|d' docs]; [exists d; reflexivity|].
  destruct IH as [d0 Hd0]; [discriminate|]. exists d0. exact Hd0.
Qed.

Lemma slice10_raises (v : value) (e : exn) :
  slice10 v = Raise e -> e = TypeError.
Proof.
  destruct v as [[s|z|]|l|d]; simpl; intros H; inversion H; reflexivity.
Qed.

Lemma last_pub_date_raises (docs : list dict) (e : exn) :
  docs <> [] -> last_pub_date docs = Raise e ->
  e = KeyError "pub_date" \/ e = TypeError.
Proof.
  intros Hne. destruct (last_item_nonempty docs Hne) as [d Hd].
  unfold last_pub_date. rewrite Hd. simpl.
  destruct (get d "pub_date") as [v|].
  - intros H. right. eapply slice10_raises. exact H.
  - intros H. inversion H. left. reflexivity.
Qed.

Lemma doc_id_raises (doc : dict) (e : exn) :
  doc_id doc = Raise e -> e = KeyError "_id" \/ e = TypeError.
Proof.
  unfold doc_id. destruct (get doc "_id") as [[s|l|d]|]; intros H;
    inversion H; auto.
Qed.

Lemma add_docs_raises (docs : list dict) :
  forall ids q0 e,
    add_docs docs ids q0 = Raise e -> e = KeyError "_id" \/ e = TypeError.
Proof.
  induction docs as [|doc docs IH]; intros ids q0 e; simpl; [discriminate|].
  destruct (doc_id doc) as [i|e'] eqn:Hid; simpl.
  - destruct (negb (in_set i ids)); apply IH.
  - intros H. inversion H; subst. eapply doc_id_raises. exact Hid.
Qed.

Lemma getn_while_raises_pop (q0 : deque) :
  forall result n e,
    getn_while q0 result n = Raise e -> e = IndexError PopFromEmptyDeque.
Proof.
  induction q0 as [|x q0 IH]; intros result n e; simpl.
  - destruct (Z.of_nat (List.length result) <? n); intros H; inversion H.
    reflexivity.
  - destruct (Z.of_nat (List.length result) <? n); [apply IH|discriminate].
Qed.

Lemma getn_raises_pop (q0 : deque) (n : Z) (e : exn) :
  getn q0 n = Raise e -> e = IndexError PopFromEmptyDeque.
Proof.
  destruct q0 as [|x q0]; unfold getn; simpl.
  - intros H. inversion H. reflexivity.
  - apply getn_while_raises_pop.
Qed.

(** The exceptions of an iteration on a reply with documents: none is the
    list index error. *)
Lemma iteration_abort_nonempty
  (bs : Z) (st : state) (status : string) (hits : Z) (docs : list dict)
  (evs : list event) (e : exn) :
  docs <> [] ->
  iteration bs st (Reply status hits docs) = (evs, Abort e) ->
  e <> IndexError ListIndexOutOfRange.
Proof.
  intros Hne. unfold iteration.
  destruct (String.eqb status "ERROR"); [discriminate|].
  destruct (hits =? 0); [discriminate|].
  destruct (add_docs docs (article_id_set st) (q st)) as [[ids q1]|e1] eqn:Ha.
  - destruct (page_num st + 1 >=? page_ceiling).
    + destruct (last_pub_date docs) as [d|e2] eqn:Hl; simpl.
      * destruct (Z.of_nat (List.length q1) >=? bs); [|discriminate].
        destruct (getn q1 bs) as [[b q2]|e3] eqn:Hg; [discriminate|].
        intros H. inversion H; subst.
        rewrite (getn_raises_pop _ _ _ Hg). discriminate.
      * intros H. inversion H; subst.
        destruct (last_pub_date_raises _ _ Hne Hl); subst; discriminate.
    + destruct (Z.of_nat (List.length q1) >=? bs); [|discriminate].
      destruct (getn q1 bs) as [[b q2]|e3] eqn:Hg; [discriminate|].
      intros H. inversion H; subst.
      rewrite (getn_raises_pop _ _ _ Hg). discriminate.
  - intros H. inversion H; subst.
    destruct (add_docs_raises _ _ _ _ Ha); subst; discriminate.
Qed.

(** C10: in an iteration on a reply whose status is not ["ERROR"] and whose
    hit count is not zero, [docs[-1]] is in bounds when [docs] is not empty:
    the read succeeds and the iteration cannot abort on a list index.  With
    an empty [docs] and the page cursor reaching the ceiling, the iteration,
    and the run with it, aborts on that index instead of ending cleanly. *)
Theorem last_document_in_bounds
  (batch_size : Z) (st : state) (status : string) (hits : Z)
  (docs : list dict) :
  status <> "ERROR" -> hits <> 0 ->
  (docs <> [] ->
   (exists d, last_item docs = Ok d) /\
   forall evs,
     iteration batch_size st (Reply status hits docs)
     <> (evs, Abort (IndexError ListIndexOutOfRange)))
  /\
  (docs = [] -> page_ceiling <= page_num st + 1 ->
   iteration batch_size st (Reply status hits docs)
   = ([EGet (current_date_lower_bound st) (page_num st)],
      Abort (IndexError ListIndexOutOfRange))
   /\
   forall rest,
     run batch_size (Reply status hits docs :: rest) st
     = ([EGet (current_date_lower_bound st) (page_num st)],
        Aborted (IndexError ListIndexOutOfRange))).
Proof.
  intros Hs Hh. split.
  - intros Hne. split; [apply last_item_nonempty; exact Hne|].
    intros evs H.
    exact (iteration_abort_nonempty _ _ _ _ _ _ _ Hne H eq_refl).
  - intros -> Hp.
    assert (Hit : iteration batch_size st (Reply status hits [])
                  = ([EGet (current_date_lower_bound st) (page_num st)],
                     Abort (IndexError ListIndexOutOfRange))).
    { unfold iteration.
      destruct (String.eqb_spec status "ERROR"); [contradiction|].
      destruct (Z.eqb_spec hits 0); [contradiction|].
      simpl add_docs. cbv iota beta.
      destruct (Z.geb_spec (page_num st + 1) page_ceiling); [|lia].
      reflexivity. }
    split; [exact Hit|]. intros rest. cbn [run]. rewrite Hit. reflexivity.
Qed.

Lemma last_document_in_bounds_witness :
  ((exists d, last_item [doc_a; doc_b] = Ok d) /\
   forall evs,
     iteration 10 (mkState (VScalar (SStr "0000-01-01")) 99 [] [])
               (Reply "OK" 7 [doc_a; doc_b])
     <> (evs, Abort (IndexError ListIndexOutOfRange)))
  /\
  run 10 [Reply "OK" 7 []] (mkState (VScalar (SStr "0000-01-01")) 99 [] [])
  = ([EGet (VScalar (SStr "0000-01-01")) 99],
     Aborted (IndexError ListIndexOutOfRange)).
Proof.
  assert (Hs : "OK" <> "ERROR") by discriminate.
  assert (Hh : 7 <> 0) by lia.
  split.
  - apply (last_document_in_bounds 10
             (mkState (VScalar (SStr "0000-01-01")) 99 [] [])
             "OK" 7 [doc_a; doc_b] Hs Hh).
    discriminate.
  - apply (last_document_in_bounds 10
             (mkState (VScalar (SStr "0000-01-01")) 99 [] [])
             "OK" 7 [] Hs Hh); [reflexivity | simpl; unfold page_ceiling; lia].
Defined.

(** ** The page cursor and the date bound *)

Lemma add_docs_ok (docs : list dict) :
  forallb has_id docs = true ->
  forall ids q0, exists ids' q1, add_docs docs ids q0 = Ok (ids', q1).
Proof.
  induction docs as [|doc docs IH]; simpl; intros H ids q0.
  - exists ids, q0. reflexivity.
  - apply andb_prop in H. destruct H as [Hd Hr]. unfold has_id in Hd.
    destruct (doc_id doc) as [i|e]; [|discriminate]. simpl.
    destruct (negb (in_set i ids)); apply IH; exact Hr.
Qed.









(** ** [flatten] *)

Lemma flatten_eq (d : dict) (parent_key : string) :
  flatten d parent_key = dict_of_items (flatten_items d parent_key).
Proof. reflexivity. Qed.

Lemma flatten_items_nil (parent_key : string) :
  flatten_items [] parent_key = [].
Proof. reflexivity. Qed.

Lemma flatten_items_dict (k : string) (sub rest : dict) (parent_key : string) :
  flatten_items ((k, VDict sub) :: rest) parent_key =
  flatten sub (new_key_of parent_key k) ++ flatten_items rest parent_key.
Proof. reflexivity. Qed.

Lemma flatten_items_scalar
  (k : string) (s : scalar) (rest : dict) (parent_key : string) :
  flatten_items ((k, VScalar s) :: rest) parent_key =
  (new_key_of parent_key k, VScalar s) :: flatten_items rest parent_key.
Proof. reflexivity. Qed.

Lemma flatten_items_list
  (k : string) (l : list value) (rest : dict) (parent_key : string) :
  flatten_items ((k, VList l) :: rest) parent_key =
  (new_key_of parent_key k, VList l) :: flatten_items rest parent_key.
Proof. reflexivity. Qed.

Lemma flatten_items_app (d1 d2 : dict) (parent_key : string) :
  flatten_items (d1 ++ d2) parent_key =
  flatten_items d1 parent_key ++ flatten_items d2 parent_key.
Proof.
  induction d1 as [|[k [s|l|sub]] d1 IH].
  - reflexivity.
  - rewrite <- app_comm_cons, !flatten_items_scalar, IH. reflexivity.
  - rewrite <- app_comm_cons, !flatten_items_list, IH. reflexivity.
  - rewrite <- app_comm_cons, !flatten_items_dict, IH.
    rewrite app_assoc. reflexivity.
Qed.

Lemma flatten_nil (parent_key : string) : flatten [] parent_key = [].
Proof. reflexivity. Qed.

Lemma drops_empty_items (d d' : dict) :
  drops_empty d d' ->
  forall parent_key, flatten_items d parent_key = flatten_items d' parent_key.
Proof.
  induction 1 as [d1 k d2 | d1 k sub sub' d2 Hsub IH]; intros parent_key.
  - rewrite !flatten_items_app, flatten_items_dict, flatten_nil. reflexivity.
  - rewrite !flatten_items_app, !flatten_items_dict, !flatten_eq, IH.
    reflexivity.
Qed.

(** C9: a key whose value is an empty mapping contributes no entry, and the
    entries of the other keys are what they are without it: the mapping and
    the mapping without that key, at the top or at any depth, flatten to the
    same result, under any parent key. *)
Theorem flatten_drops_empty (d d' : dict) (parent_key : string) :
  drops_empty d d' ->
  flatten d parent_key = flatten d' parent_key /\
  flatten_items d parent_key = flatten_items d' parent_key /\
  (forall k, flatten_items [(k, VDict [])] parent_key = []).
Proof.
  intros H. rewrite !flatten_eq, (drops_empty_items d d' H).
  repeat split.
Qed.

Lemma flatten_drops_empty_witness :
  drops_empty
    [("_id", VScalar (SStr "a"));
     ("legacy", VDict []);
     ("headline", VDict [("main", VScalar (SStr "h"))])]
    [("_id", VScalar (SStr "a"));
     ("headline", VDict [("main", VScalar (SStr "h"))])]
  /\
  flatten
    [("_id", VScalar (SStr "a"));
     ("legacy", VDict []);
     ("headline", VDict [("main", VScalar (SStr "h"))])] ""
  = [("_id", VScalar (SStr "a")); ("headline.main", VScalar (SStr "h"))].
Proof.
  assert (H : drops_empty
                ([("_id", VScalar (SStr "a"))] ++ ("legacy", VDict []) ::
                 [("headline", VDict [("main", VScalar (SStr "h"))])])
                ([("_id", VScalar (SStr "a"))] ++
                 [("headline", VDict [("main", VScalar (SStr "h"))])]))
    by apply drop_here.
  split; [exact H|].
  destruct (flatten_drops_empty _ _ "" H) as [Hf _].
  etransitivity; [exact Hf|]. reflexivity.
Defined.

(** ** Deduplication *)

Lemma in_set_true (x : scalar) (s : list scalar) :
  in_set x s = true <-> In x s.
Proof.
  unfold in_set. destruct (in_dec scalar_eq_dec x s); split; intros H;
    try assumption; try reflexivity; try discriminate; contradiction.
Qed.

Lemma Forall2_firstn {A B : Type} (P : A -> B -> Prop) (n : nat) :
  forall l1 l2, Forall2 P l1 l2 -> Forall2 P (firstn n l1) (firstn n l2).
Proof.
  induction n as [|n IH]; intros l1 l2 H; simpl; [constructor|].
  destruct H; [constructor|]. constructor; [assumption | apply IH; assumption].
Qed.

Lemma Forall2_skipn {A B : Type} (P : A -> B -> Prop) (n : nat) :
  forall l1 l2, Forall2 P l1 l2 -> Forall2 P (skipn n l1) (skipn n l2).
Proof.
  induction n as [|n IH]; intros l1 l2 H; simpl; [assumption|].
  destruct H; [constructor|]. apply IH; assumption.
Qed.

Section Dedup.

Variable pool : list dict.

(** The [for doc in docs] loop buffers a document only when its id is new,
    and then adds the id to the seen set. *)
Lemma add_docs_inv (docs : list dict) :
  incl docs pool ->
  forall ids q0 ids' q1 ids_q ids_e,
    add_docs docs ids q0 = Ok (ids', q1) ->
    Forall2 (delivers pool) q0 ids_q ->
    NoDup (ids_q ++ ids_e) ->
    incl (ids_q ++ ids_e) ids ->
    exists ids_q',
      Forall2 (delivers pool) q1 ids_q' /\
      NoDup (ids_q' ++ ids_e) /\
      incl (ids_q' ++ ids_e) ids'.
Proof.
  induction docs as [|doc docs IH]; intros Hpool ids q0 ids' q1 ids_q ids_e;
    simpl.
  - intros H Hq Hnd Hin. inversion H; subst. exists ids_q. auto.
  - destruct (doc_id doc) as [i|e] eqn:Hid; simpl; [|discriminate].
    assert (Hdocs : incl docs pool).
    { intros d Hd. apply Hpool. right. exact Hd. }
    destruct (in_set i ids) eqn:Hi; simpl.
    + apply IH. exact Hdocs.
    + intros H Hq Hnd Hin.
      apply (IH Hdocs (i :: ids) (flatten doc "" :: q0) ids' q1
                (i :: ids_q) ids_e H).
      * constructor; [|exact Hq]. exists doc. repeat split.
        -- apply Hpool. left. reflexivity.
        -- exact Hid.
      * simpl. constructor; [|exact Hnd]. intros Hc.
        apply Hin in Hc. apply in_set_true in Hc. congruence.
      * simpl. intros x [Hx|Hx]; [left; exact Hx | right; apply Hin, Hx].
Qed.

(** The seen set only grows. *)
Lemma add_docs_grows (docs : list dict) :
  forall ids q0 ids' q1,
    add_docs docs ids q0 = Ok (ids', q1) -> incl ids ids'.
Proof.
  induction docs as [|doc docs IH]; intros ids q0 ids' q1; simpl.
  - intros H. inversion H; subst. apply incl_refl.
  - destruct (doc_id doc) as [i|e]; simpl; [|discriminate].
    destruct (in_set i ids); simpl; intros H.
    + eapply IH. exact H.
    + apply IH in H. intros x Hx. apply H. right. exact Hx.
Qed.

(** One iteration keeps the invariant, the batch it yields joining the
    records yielded so far. *)
Lemma iteration_dedup
  (bs : Z) (st st' : state) (r : response) (evs : list event)
  (emitted : list dict) :
  incl (docs_of r) pool ->
  dedup_inv pool emitted st ->
  iteration bs st r = (evs, Continue st') ->
  dedup_inv pool (emitted ++ List.concat (batches evs)) st'.
Proof.
  intros Hpool Hinv Hit. destruct r as [f|status hits docs].
  - rewrite iteration_fault in Hit. inversion Hit; subst. simpl.
    rewrite app_nil_r. exact Hinv.
  - apply iteration_continue_inv in Hit.
    destruct Hit as (_ & _ & ids & q1 & Hadd & Hids & _ & _ & Hy).
    destruct Hinv as (ids_q & ids_e & Hq & He & Hnd & Hin).
    destruct (add_docs_inv docs Hpool _ _ _ _ _ _ Hadd Hq Hnd Hin)
      as (ids_q' & Hq' & Hnd' & Hin').
    destruct Hy as [(_ & -> & Hq2 & _) | (_ & -> & Hq2)]; simpl.
    + rewrite app_nil_r.
      exists (skipn (taken bs) ids_q'), (ids_e ++ firstn (taken bs) ids_q').
      assert (Hperm : Permutation
                        (skipn (taken bs) ids_q' ++
                         ids_e ++ firstn (taken bs) ids_q')
                        (ids_q' ++ ids_e)).
      { rewrite <- (firstn_skipn (taken bs) ids_q') at 3.
        rewrite <- app_assoc.
        rewrite (Permutation_app_comm (firstn (taken bs) ids_q')).
        rewrite <- !app_assoc. reflexivity. }
      split; [rewrite Hq2; apply Forall2_skipn; exact Hq'|].
      split; [apply Forall2_app; [exact He|];
              apply Forall2_firstn; exact Hq'|].
      split.
      * eapply Permutation_NoDup; [symmetry; exact Hperm | exact Hnd'].
      * rewrite Hids. intros x Hx. apply Hin'.
        eapply Permutation_in; [exact Hperm | exact Hx].
    + rewrite app_nil_r. exists ids_q', ids_e.
      rewrite Hq2, Hids. auto.
Qed.

(** The invariant along a run. *)
Lemma run_dedup (bs : Z) (script : list response) :
  incl (fetched script) pool ->
  forall st emitted,
    dedup_inv pool emitted st ->
    (exists ids,
        Forall2 (delivers pool)
                (emitted ++ List.concat (batches (fst (run bs script st)))) ids /\
        NoDup ids) /\
    (forall st',
        snd (run bs script st) = Running st' ->
        dedup_inv pool
                  (emitted ++ List.concat (batches (fst (run bs script st))))
                  st').
Proof.
  induction script as [|r script IH]; intros Hpool st emitted Hinv.
  - simpl. rewrite app_nil_r. split.
    + destruct Hinv as (ids_q & ids_e & _ & He & Hnd & _).
      exists ids_e. split; [exact He|].
      apply NoDup_app_remove_l in Hnd. exact Hnd.
    + intros st' H. inversion H; subst. exact Hinv.
  - assert (Hr : incl (docs_of r) pool).
    { intros d Hd. apply Hpool. simpl. apply in_or_app. left. exact Hd. }
    assert (Hs : incl (fetched script) pool).
    { intros d Hd. apply Hpool. simpl. apply in_or_app. right. exact Hd. }
    pose proof (iteration_batches bs st r) as [Hone _].
    cbn [run].
    destruct (iteration bs st r) as [evs [st1| |e]] eqn:Hit.
    + pose proof (iteration_dedup bs st st1 r evs emitted Hr Hinv Hit)
        as Hinv1.
      destruct (IH Hs st1 _ Hinv1) as [Hids Hrun].
      destruct (run bs script st1) as [evs' o]. simpl in *.
      rewrite batches_app, concat_app, app_assoc.
      split; [exact Hids | exact Hrun].
    + simpl in *.
      assert (Hb : batches evs = []).
      { destruct r as [f|status hits docs];
          [rewrite iteration_fault in Hit; discriminate|].
        unfold iteration in Hit.
        destruct (String.eqb status "ERROR");
          [inversion Hit; reflexivity|].
        destruct (hits =? 0); [inversion Hit; reflexivity|].
        destruct (add_docs docs (article_id_set st) (q st))
          as [[ids q1]|e]; [|discriminate].
        destruct (if page_num st + 1 >=? page_ceiling
                  then d <- last_pub_date docs;; Ok (d, 0)
                  else Ok (current_date_lower_bound st, page_num st + 1))
          as [[d p]|e]; [|discriminate].
        destruct (Z.of_nat (List.length q1) >=? bs); [|discriminate].
        destruct (getn q1 bs) as [[b q2]|e]; discriminate. }
      rewrite Hb. simpl. rewrite app_nil_r. split; [|discriminate].
      destruct Hinv as (ids_q & ids_e & _ & He & Hnd & _).
      exists ids_e. split; [exact He|].
      apply NoDup_app_remove_l in Hnd. exact Hnd.
    + simpl in *.
      assert (Hb : batches evs = []).
      { destruct r as [f|status hits docs];
          [rewrite iteration_fault in Hit; discriminate|].
        unfold iteration in Hit.
        destruct (String.eqb status "ERROR"); [discriminate|].
        destruct (hits =? 0); [discriminate|].
        destruct (add_docs docs (article_id_set st) (q st))
          as [[ids q1]|e']; [|inversion Hit; reflexivity].
        destruct (if page_num st + 1 >=? page_ceiling
                  then d <- last_pub_date docs;; Ok (d, 0)
                  else Ok (current_date_lower_bound st, page_num st + 1))
          as [[d p]|e']; [|inversion Hit; reflexivity].
        destruct (Z.of_nat (List.length q1) >=? bs); [|discriminate].
        destruct (getn q1 bs) as [[b q2]|e']; [discriminate|].
        inversion Hit; reflexivity. }
      rewrite Hb. simpl. rewrite app_nil_r. split; [|discriminate].
      destruct Hinv as (ids_q & ids_e & _ & He & Hnd & _).
      exists ids_e. split; [exact He|].
      apply NoDup_app_remove_l in Hnd. exact Hnd.
Qed.

End Dedup.

Lemma dedup_inv_initial (pool : list dict) :
  dedup_inv pool [] initial_state.
Proof.
  exists [], []. simpl. repeat split; try constructor.
  intros x Hx. exact Hx.
Qed.

(** ** Dictionaries built from items *)

Lemma get_set_item (d : dict) (k k' : string) (v : value) :
  get (set_item d k v) k' = if String.eqb k k' then Some v else get d k'.
Proof.
  induction d as [|[k0 v0] d IH]; simpl.
  - reflexivity.
  - destruct (String.eqb_spec k0 k) as [->|Hk0]; simpl.
    + destruct (String.eqb k k'); reflexivity.
    + destruct (String.eqb_spec k0 k') as [->|Hk0'].
      * destruct (String.eqb_spec k k'); [congruence | reflexivity].
      * exact IH.
Qed.

Lemma get_snoc (d : dict) (k1 k : string) (v1 : value) :
  get (d ++ [(k1, v1)]) k =
  match get d k with
  | Some v => Some v
  | None => if String.eqb k1 k then Some v1 else None
  end.
Proof.
  induction d as [|[k0 v0] d IH]; simpl; [reflexivity|].
  destruct (String.eqb k0 k); [reflexivity | exact IH].
Qed.

(** In [dict(items)] a key has the value of its last item. *)
Lemma get_fold_set_item (items : list (string * value)) :
  forall (d0 : dict) (k : string),
    get (fold_left (fun d kv => set_item d (fst kv) (snd kv)) items d0) k =
    match get (rev items) k with
    | Some v => Some v
    | None => get d0 k
    end.
Proof.
  induction items as [|[k1 v1] items IH]; intros d0 k; simpl; [reflexivity|].
  rewrite IH, get_snoc, get_set_item.
  destruct (get (rev items) k); [reflexivity|].
  destruct (String.eqb k1 k); reflexivity.
Qed.

Lemma get_dict_of_items (items : list (string * value)) (k : string) :
  get (dict_of_items items) k = get (rev items) k.
Proof.
  unfold dict_of_items. rewrite get_fold_set_item.
  destruct (get (rev items) k); reflexivity.
Qed.

Lemma in_set_item (d : dict) (k0 : string) (v0 : value) (kv : string * value) :
  In kv (set_item d k0 v0) -> kv = (k0, v0) \/ In kv d.
Proof.
  induction d as [|[k1 v1] d IH]; simpl.
  - intros [H|[]]. left. symmetry. exact H.
  - destruct (String.eqb_spec k1 k0) as [->|Hk]; simpl.
    + intros [H|H]; [left; symmetry; exact H | right; right; exact H].
    + intros [H|H]; [right; left; exact H|].
      destruct (IH H) as [H'|H']; [left; exact H' | right; right; exact H'].
Qed.

Lemma in_fold_set_item (items : list (string * value)) :
  forall (d0 : dict) (kv : string * value),
    In kv (fold_left (fun d kv => set_item d (fst kv) (snd kv)) items d0) ->
    In kv items \/ In kv d0.
Proof.
  induction items as [|[k1 v1] items IH]; intros d0 kv; simpl.
  - intros H. right. exact H.
  - intros H. destruct (IH _ _ H) as [H'|H']; [left; right; exact H'|].
    simpl in H'. destruct (in_set_item _ _ _ _ H') as [->|H''].
    + left. left. reflexivity.
    + right. exact H''.
Qed.

(** Every entry of [dict(items)] is one of the items. *)
Lemma in_dict_of_items (items : list (string * value)) (kv : string * value) :
  In kv (dict_of_items items) -> In kv items.
Proof.
  intros H. destruct (in_fold_set_item _ _ _ H) as [H'|[]]. exact H'.
Qed.

Lemma set_item_fresh (d : dict) (k : string) (v : value) :
  ~ In k (keys d) -> set_item d k v = d ++ [(k, v)].
Proof.
  induction d as [|[k1 v1] d IH]; simpl; intros Hk; [reflexivity|].
  destruct (String.eqb_spec k1 k) as [->|Hne]; [tauto|].
  rewrite IH by tauto. reflexivity.
Qed.

Lemma fold_set_item_fresh (items : list (string * value)) :
  forall d0 : dict,
    NoDup (keys (d0 ++ items)) ->
    fold_left (fun d kv => set_item d (fst kv) (snd kv)) items d0
    = d0 ++ items.
Proof.
  induction items as [|[k v] items IH]; intros d0 Hnd; simpl.
  - rewrite app_nil_r. reflexivity.
  - assert (Hnd' : NoDup (keys ((d0 ++ [(k, v)]) ++ items))).
    { rewrite <- app_assoc. exact Hnd. }
    rewrite set_item_fresh.
    + rewrite IH by exact Hnd'. rewrite <- app_assoc. reflexivity.
    + unfold keys in Hnd. rewrite map_app in Hnd. simpl in Hnd.
      apply NoDup_remove_2 in Hnd. intros Hin. apply Hnd.
      apply in_or_app. left. exact Hin.
Qed.

(** Without two items of the same key, [dict(items)] is [items]. *)
Lemma dict_of_items_nodup (items : list (string * value)) :
  NoDup (keys items) -> dict_of_items items = items.
Proof.
  intros Hnd. unfold dict_of_items. rewrite fold_set_item_fresh; auto.
Qed.

Lemma get_in_unique (d : dict) (k : string) (v : value) :
  In (k, v) d -> (forall v', In (k, v') d -> v' = v) -> get d k = Some v.
Proof.
  induction d as [|[k1 v1] d IH]; simpl; intros Hin Hu; [contradiction|].
  destruct (String.eqb_spec k1 k) as [->|Hne].
  - f_equal. apply Hu. left. reflexivity.
  - destruct Hin as [Hin|Hin]; [congruence|].
    apply IH; [exact Hin|]. intros v' Hv'. apply Hu. right. exact Hv'.
Qed.

Lemma get_in (d : dict) (k : string) (v : value) :
  get d k = Some v -> In (k, v) d.
Proof.
  induction d as [|[k1 v1] d IH]; simpl; [discriminate|].
  destruct (String.eqb_spec k1 k) as [->|Hne].
  - intros H. inversion H. left. reflexivity.
  - intros H. right. apply IH. exact H.
Qed.

Lemma unique_keys_nodup (d : dict) :
  unique_keys d = true -> NoDup (keys d).
Proof.
  induction d as [|[k v] d IH]; simpl; intros H; [constructor|].
  apply andb_prop in H. destruct H as [Hk Hd].
  constructor; [|apply IH; exact Hd].
  intros Hin. apply negb_true_iff in Hk.
  assert (Hex : existsb (String.eqb k) (keys d) = true).
  { apply existsb_exists. exists k. split; [exact Hin|]. apply String.eqb_refl. }
  congruence.
Qed.

Lemma nodup_keys_functional (d : dict) (k : string) (v v' : value) :
  NoDup (keys d) -> In (k, v) d -> In (k, v') d -> v = v'.
Proof.
  induction d as [|[k1 v1] d IH]; simpl; intros Hnd Hv Hv'; [contradiction|].
  inversion Hnd as [|? ? Hk Hnd']; subst.
  assert (Hkey : forall w, In (k1, w) d -> False).
  { intros w Hw. apply Hk. apply (in_map fst) in Hw. exact Hw. }
  destruct Hv as [Hv|Hv]; destruct Hv' as [Hv'|Hv'].
  - congruence.
  - inversion Hv; subst. exfalso. eapply Hkey. exact Hv'.
  - inversion Hv'; subst. exfalso. eapply Hkey. exact Hv.
  - apply IH; assumption.
Qed.

(** ** The keys [flatten] builds *)

Lemma has_dot_append (a b : string) :
  has_dot (a ++ b) = has_dot a || has_dot b.
Proof.
  induction a as [|c a IH]; simpl; [reflexivity|].
  rewrite IH, orb_assoc. reflexivity.
Qed.

Lemma new_key_of_empty (k : string) : new_key_of "" k = k.
Proof. reflexivity. Qed.

Lemma new_key_of_truthy (parent_key k : string) :
  truthy parent_key = true ->
  new_key_of parent_key k = (parent_key ++ "." ++ k)%string.
Proof. unfold new_key_of. intros ->. reflexivity. Qed.

Lemma new_key_of_dotted (parent_key k : string) :
  truthy parent_key = true ->
  has_dot (new_key_of parent_key k) = true /\
  truthy (new_key_of parent_key k) = true.
Proof.
  intros H. rewrite new_key_of_truthy by exact H. split.
  - rewrite has_dot_append. simpl. apply orb_true_r.
  - destruct parent_key; [discriminate | reflexivity].
Qed.

(** Under a non-empty parent key every key has a dot. *)
Lemma flatten_items_dotted (d : dict) :
  forall parent_key kv,
    truthy parent_key = true ->
    In kv (flatten_items d parent_key) -> has_dot (fst kv) = true.
Proof.
  induction d as [|k s rest IH|k l rest IH|k sub rest IHsub IH]
    using dict_nested_ind; intros parent_key kv Hp.
  - intros [].
  - rewrite flatten_items_scalar. intros [<-|H]; [|eapply IH; eassumption].
    apply new_key_of_dotted. exact Hp.
  - rewrite flatten_items_list. intros [<-|H]; [|eapply IH; eassumption].
    apply new_key_of_dotted. exact Hp.
  - rewrite flatten_items_dict, flatten_eq. intros H.
    apply in_app_or in H. destruct H as [H|H]; [|eapply IH; eassumption].
    apply in_dict_of_items in H.
    eapply IHsub; [|exact H]. apply new_key_of_dotted. exact Hp.
Qed.

(** At the top, a key without a dot is a key of the document itself. *)
Lemma flatten_items_top (d : dict) (k : string) (v : value) :
  named_branches d = true ->
  has_dot k = false ->
  In (k, v) (flatten_items d "") -> In (k, v) d.
Proof.
  intros Hn Hk. induction d as [|[k1 [s|l|sub]] d IH]; simpl in Hn.
  - intros [].
  - rewrite flatten_items_scalar, new_key_of_empty.
    intros [H|H]; [left; exact H | right; apply IH; assumption].
  - rewrite flatten_items_list, new_key_of_empty.
    intros [H|H]; [left; exact H | right; apply IH; assumption].
  - apply andb_prop in Hn. destruct Hn as [Hk1 Hn].
    rewrite flatten_items_dict, flatten_eq, new_key_of_empty. intros H.
    apply in_app_or in H. destruct H as [H|H]; [|right; apply IH; assumption].
    apply in_dict_of_items in H.
    apply (flatten_items_dotted sub k1 (k, v) Hk1) in H. simpl in H.
    congruence.
Qed.

Lemma in_flatten_items_scalar (d : dict) (k : string) (s : scalar) :
  In (k, VScalar s) d -> In (k, VScalar s) (flatten_items d "").
Proof.
  induction d as [|[k1 [s1|l|sub]] d IH]; simpl In at 1.
  - intros [].
  - rewrite flatten_items_scalar, new_key_of_empty.
    intros [H|H]; [left; exact H | right; apply IH; exact H].
  - rewrite flatten_items_list, new_key_of_empty.
    intros [H|H]; [discriminate | right; apply IH; exact H].
  - rewrite flatten_items_dict.
    intros [H|H]; [discriminate | apply in_or_app; right; apply IH; exact H].
Qed.

(** The record of a document with distinct keys and no mapping under the
    empty key shows the id of the document. *)
Lemma flatten_keeps_id (doc : dict) (i : scalar) :
  unique_keys doc = true -> named_branches doc = true ->
  doc_id doc = Ok i ->
  record_id (flatten doc "") = Some (VScalar i).
Proof.
  intros Hu Hn Hid. unfold doc_id in Hid.
  destruct (get doc "_id") as [[s|l|sub]|] eqn:Hget; inversion Hid; subst.
  apply get_in in Hget.
  unfold record_id. rewrite flatten_eq, get_dict_of_items.
  apply get_in_unique.
  - apply -> in_rev. apply in_flatten_items_scalar. exact Hget.
  - intros v' Hv'. apply in_rev in Hv'.
    apply flatten_items_top in Hv'; [|exact Hn|reflexivity].
    eapply nodup_keys_functional;
      [apply unique_keys_nodup; exact Hu | exact Hv' | exact Hget].
Qed.

Lemma delivered_record_ids (pool : list dict) :
  forallb plain_doc pool = true ->
  forall records ids,
    Forall2 (delivers pool) records ids ->
    map record_id records = map (fun i => Some (VScalar i)) ids.
Proof.
  intros Hpool records ids H. induction H as [|r i records ids Hr _ IH].
  - reflexivity.
  - simpl. rewrite IH. f_equal.
    destruct Hr as (doc & Hin & Hid & ->).
    rewrite forallb_forall in Hpool. specialize (Hpool doc Hin).
    unfold plain_doc in Hpool. apply andb_prop in Hpool.
    destruct Hpool as [Hu Hn]. apply flatten_keeps_id; assumption.
Qed.

Lemma NoDup_map_scalar (ids : list scalar) :
  NoDup ids -> NoDup (map (fun i => Some (VScalar i)) ids).
Proof.
  induction 1 as [|i ids Hi _ IH]; simpl; constructor; [|exact IH].
  intros Hin. apply in_map_iff in Hin. destruct Hin as (j & Hj & Hin).
  inversion Hj; subst. contradiction.
Qed.

(** C2: the records of all the batches of a run, in the order yielded, are
    the flattenings of fetched documents whose ids are pairwise distinct: no
    id is delivered twice, in one batch or in two.  The ids read off the
    records are distinct as well when the documents are plain.  While the
    loop runs, the buffered and the delivered records together have distinct
    ids, all of them in the seen set. *)
Theorem dedup_exactly_once (batch_size : Z) (script : list response) :
  (exists ids,
      Forall2 (delivers (fetched script))
              (List.concat (batches (fst (getDataBatch batch_size script))))
              ids /\
      NoDup ids)
  /\
  (forallb plain_doc (fetched script) = true ->
   NoDup (map record_id
              (List.concat (batches (fst (getDataBatch batch_size script))))))
  /\
  (forall st,
      snd (getDataBatch batch_size script) = Running st ->
      dedup_inv (fetched script)
                (List.concat (batches (fst (getDataBatch batch_size script))))
                st).
Proof.
  unfold getDataBatch.
  destruct (run_dedup (fetched script) batch_size script (incl_refl _)
                      initial_state [] (dedup_inv_initial _))
    as [(ids & Hids & Hnd) Hrun].
  simpl in Hids, Hrun.
  split; [exists ids; split; assumption|].
  split; [|exact Hrun].
  intros Hplain.
  rewrite (delivered_record_ids _ Hplain _ _ Hids).
  apply NoDup_map_scalar. exact Hnd.
Qed.

Lemma dedup_exactly_once_witness :
  forallb plain_doc
          (fetched [Reply "OK" 9 [doc_a; doc_b; doc_a];
                    Fault sample_fault;
                    Reply "OK" 9 [doc_b; doc_c; doc_d]]) = true
  /\
  NoDup (map record_id
             (List.concat
                (batches
                   (fst (getDataBatch 2
                           [Reply "OK" 9 [doc_a; doc_b; doc_a];
                            Fault sample_fault;
                            Reply "OK" 9 [doc_b; doc_c; doc_d]]))))).
Proof.
  split; [reflexivity|].
  apply (dedup_exactly_once 2
           [Reply "OK" 9 [doc_a; doc_b; doc_a];
            Fault sample_fault;
            Reply "OK" 9 [doc_b; doc_c; doc_d]]).
  reflexivity.
Defined.

(** ** Paths and dotted keys *)

Lemma string_app_assoc (a b c : string) :
  ((a ++ b) ++ c = a ++ (b ++ c))%string.
Proof.
  induction a as [|x a IH]; simpl; [reflexivity|]. rewrite IH. reflexivity.
Qed.

Lemma string_app_inj (a x y : string) :
  (a ++ x = a ++ y)%string -> x = y.
Proof.
  induction a as [|c a IH]; simpl; intros H; [exact H|].
  inversion H. apply IH. assumption.
Qed.

Lemma split_dot_not_nil (key : string) : split_dot key <> [].
Proof.
  destruct key as [|c key]; simpl; [discriminate|].
  destruct (is_dot c); [discriminate|].
  destruct (split_dot key); discriminate.
Qed.

Lemma split_dot_plain (k : string) :
  has_dot k = false -> split_dot k = [k].
Proof.
  induction k as [|c k IH]; simpl; intros H; [reflexivity|].
  apply orb_false_iff in H. destruct H as [Hc Hk].
  rewrite Hc, IH by exact Hk. reflexivity.
Qed.

Lemma split_dot_cons (k rest : string) :
  has_dot k = false ->
  split_dot (k ++ String "." rest) = k :: split_dot rest.
Proof.
  induction k as [|c k IH]; simpl; intros H; [reflexivity|].
  apply orb_false_iff in H. destruct H as [Hc Hk].
  rewrite Hc, IH by exact Hk. reflexivity.
Qed.

Lemma split_join (path : list string) :
  good_path path -> split_dot (join_dot path) = path.
Proof.
  intros [Hne Hd]. induction path as [|k rest IH]; [congruence|].
  simpl in Hd. apply andb_prop in Hd. destruct Hd as [Hk Hrest].
  apply negb_true_iff in Hk.
  destruct rest as [|k' rest].
  - simpl. apply split_dot_plain. exact Hk.
  - change (join_dot (k :: k' :: rest))
      with (k ++ String "." (join_dot (k' :: rest)))%string.
    rewrite split_dot_cons by exact Hk.
    rewrite IH; [reflexivity | discriminate | exact Hrest].
Qed.

Lemma join_dot_inj (p1 p2 : list string) :
  good_path p1 -> good_path p2 -> join_dot p1 = join_dot p2 -> p1 = p2.
Proof.
  intros H1 H2 H. rewrite <- (split_join p1 H1), <- (split_join p2 H2), H.
  reflexivity.
Qed.

Lemma join_dot_cons (k : string) (path : list string) :
  path <> [] -> join_dot (k :: path) = (k ++ "." ++ join_dot path)%string.
Proof. destruct path; [congruence | reflexivity]. Qed.

(** ** The leaves of a mapping *)

Lemma leaves_scalar (k : string) (s : scalar) (rest : dict) :
  leaves ((k, VScalar s) :: rest) = ([k], VScalar s) :: leaves rest.
Proof. reflexivity. Qed.

Lemma leaves_list (k : string) (l : list value) (rest : dict) :
  leaves ((k, VList l) :: rest) = ([k], VList l) :: leaves rest.
Proof. reflexivity. Qed.

Lemma leaves_dict (k : string) (sub rest : dict) :
  leaves ((k, VDict sub) :: rest) =
  map (fun pv => (k :: fst pv, snd pv)) (leaves sub) ++ leaves rest.
Proof. reflexivity. Qed.

Lemma every_entry_cons
  (P : string -> value -> dict -> bool) (k : string) (v : value) (rest : dict) :
  every_entry P (VDict ((k, v) :: rest)) =
  P k v rest && every_entry P v && every_entry P (VDict rest).
Proof. reflexivity. Qed.

Lemma wf_dict_cons (k : string) (v : value) (rest : dict) :
  wf_dict ((k, v) :: rest) = true ->
  ~ In k (keys rest) /\
  (forall sub, v = VDict sub -> wf_dict sub = true) /\
  wf_dict rest = true.
Proof.
  unfold wf_dict. rewrite every_entry_cons. intros H.
  apply andb_prop in H. destruct H as [H Hrest].
  apply andb_prop in H. destruct H as [Hk Hv].
  split; [|split; [intros sub ->; exact Hv | exact Hrest]].
  intros Hin. apply negb_true_iff in Hk.
  assert (Hex : existsb (String.eqb k) (keys rest) = true).
  { apply existsb_exists. exists k. split; [exact Hin|]. apply String.eqb_refl. }
  congruence.
Qed.

Lemma dot_free_cons (k : string) (v : value) (rest : dict) :
  dot_free ((k, v) :: rest) = true ->
  has_dot k = false /\
  (forall sub, v = VDict sub -> dot_free sub = true) /\
  dot_free rest = true.
Proof.
  unfold dot_free. rewrite every_entry_cons. intros H.
  apply andb_prop in H. destruct H as [H Hrest].
  apply andb_prop in H. destruct H as [Hk Hv].
  apply negb_true_iff in Hk.
  split; [exact Hk|]. split; [intros sub ->; exact Hv | exact Hrest].
Qed.

Lemma no_empty_branch_cons (k : string) (v : value) (rest : dict) :
  no_empty_branch ((k, v) :: rest) = true ->
  (forall sub, v = VDict sub -> sub <> [] /\ no_empty_branch sub = true) /\
  no_empty_branch rest = true.
Proof.
  unfold no_empty_branch. rewrite every_entry_cons. intros H.
  apply andb_prop in H. destruct H as [H Hrest].
  apply andb_prop in H. destruct H as [Hk Hv].
  split; [|exact Hrest]. intros sub ->. split; [|exact Hv].
  intros ->. discriminate.
Qed.

Lemma leaves_good (d : dict) :
  dot_free d = true ->
  forall pv, In pv (leaves d) -> good_path (fst pv).
Proof.
  induction d as [|k s rest IH|k l rest IH|k sub rest IHsub IH]
    using dict_nested_ind; intros Hd pv.
  - intros [].
  - apply dot_free_cons in Hd. destruct Hd as (Hk & _ & Hrest).
    rewrite leaves_scalar. intros [<-|H]; [|apply IH; assumption].
    split; [discriminate|]. simpl. rewrite Hk. reflexivity.
  - apply dot_free_cons in Hd. destruct Hd as (Hk & _ & Hrest).
    rewrite leaves_list. intros [<-|H]; [|apply IH; assumption].
    split; [discriminate|]. simpl. rewrite Hk. reflexivity.
  - apply dot_free_cons in Hd. destruct Hd as (Hk & Hsub & Hrest).
    rewrite leaves_dict. intros H. apply in_app_or in H.
    destruct H as [H|H]; [|apply IH; assumption].
    apply in_map_iff in H. destruct H as (pv' & <- & H').
    destruct (IHsub (Hsub sub eq_refl) pv' H') as [_ Hp].
    split; [discriminate|]. simpl. rewrite Hk, Hp. reflexivity.
Qed.

Lemma leaves_head (d : dict) :
  forall pv, In pv (leaves d) ->
             exists k path, fst pv = k :: path /\ In k (keys d).
Proof.
  induction d as [|[k [s|l|sub]] d IH]; intros pv.
  - intros [].
  - rewrite leaves_scalar. intros [<-|H].
    + exists k, []. split; [reflexivity | left; reflexivity].
    + destruct (IH pv H) as (k' & p & Hp & Hk). exists k', p.
      split; [exact Hp | right; exact Hk].
  - rewrite leaves_list. intros [<-|H].
    + exists k, []. split; [reflexivity | left; reflexivity].
    + destruct (IH pv H) as (k' & p & Hp & Hk). exists k', p.
      split; [exact Hp | right; exact Hk].
  - rewrite leaves_dict. intros H. apply in_app_or in H. destruct H as [H|H].
    + apply in_map_iff in H. destruct H as (pv' & <- & _).
      exists k, (fst pv'). split; [reflexivity | left; reflexivity].
    + destruct (IH pv H) as (k' & p & Hp & Hk). exists k', p.
      split; [exact Hp | right; exact Hk].
Qed.

Lemma leaves_head_fresh (d : dict) (k : string) (path : list string) :
  ~ In k (keys d) -> ~ In (k :: path) (map fst (leaves d)).
Proof.
  intros Hk Hin. apply in_map_iff in Hin. destruct Hin as (pv & Hpv & Hin).
  destruct (leaves_head d pv Hin) as (k' & p & Hp & Hk').
  rewrite Hpv in Hp. inversion Hp; subst. contradiction.
Qed.

(** The paths of the leaves of a mapping with distinct keys are distinct. *)
Lemma leaves_nodup (d : dict) :
  wf_dict d = true -> NoDup (map fst (leaves d)).
Proof.
  induction d as [|k s rest IH|k l rest IH|k sub rest IHsub IH]
    using dict_nested_ind; intros Hw.
  - constructor.
  - apply wf_dict_cons in Hw. destruct Hw as (Hk & _ & Hrest).
    rewrite leaves_scalar. simpl. constructor; [|apply IH; exact Hrest].
    apply leaves_head_fresh. exact Hk.
  - apply wf_dict_cons in Hw. destruct Hw as (Hk & _ & Hrest).
    rewrite leaves_list. simpl. constructor; [|apply IH; exact Hrest].
    apply leaves_head_fresh. exact Hk.
  - apply wf_dict_cons in Hw. destruct Hw as (Hk & Hsub & Hrest).
    rewrite leaves_dict, map_app, map_map. simpl.
    apply NoDup_app.
    + rewrite <- (map_map fst (fun p => k :: p)).
      apply Finite.Injective_map_NoDup_in; [|apply IHsub, Hsub; reflexivity].
      intros x y _ _ H. inversion H. reflexivity.
    + apply IH. exact Hrest.
    + intros p Hp. apply in_map_iff in Hp. destruct Hp as (pv & <- & _).
      apply leaves_head_fresh. exact Hk.
Qed.

Lemma leaves_nonempty (d : dict) :
  no_empty_branch d = true -> d <> [] -> leaves d <> [].
Proof.
  induction d as [|k s rest IH|k l rest IH|k sub rest IHsub IH]
    using dict_nested_ind; intros Hn Hne.
  - congruence.
  - rewrite leaves_scalar. discriminate.
  - rewrite leaves_list. discriminate.
  - apply no_empty_branch_cons in Hn. destruct Hn as (Hsub & _).
    destruct (Hsub sub eq_refl) as [Hs Hn].
    rewrite leaves_dict. specialize (IHsub Hn Hs).
    destruct (leaves sub); [congruence | discriminate].
Qed.

(** ** [flatten] on mappings with plain keys *)

(** The keys built from the paths of the leaves, behind a common prefix, do
    not collide. *)
Lemma path_keys_nodup (d : dict) (prefix : string) :
  wf_dict d = true -> dot_free d = true ->
  NoDup (keys (map (fun pv => ((prefix ++ join_dot (fst pv))%string, snd pv))
                   (leaves d))).
Proof.
  intros Hw Hd. unfold keys. rewrite map_map. simpl.
  rewrite <- (map_map fst (fun p => (prefix ++ join_dot p)%string)).
  apply Finite.Injective_map_NoDup_in; [|apply leaves_nodup; exact Hw].
  intros p1 p2 H1 H2 H. apply string_app_inj in H.
  apply in_map_iff in H1. destruct H1 as (pv1 & <- & H1).
  apply in_map_iff in H2. destruct H2 as (pv2 & <- & H2).
  apply join_dot_inj; [eapply leaves_good | eapply leaves_good | exact H];
    eassumption.
Qed.

(** Under a non-empty parent key, the items are the leaves, each under the
    parent key, a dot and its dot-joined path. *)
Lemma flatten_items_paths (d : dict) :
  wf_dict d = true -> dot_free d = true ->
  forall parent_key,
    truthy parent_key = true ->
    flatten_items d parent_key =
    map (fun pv => ((parent_key ++ "." ++ join_dot (fst pv))%string, snd pv))
        (leaves d).
Proof.
  induction d as [|k s rest IH|k l rest IH|k sub rest IHsub IH]
    using dict_nested_ind; intros Hw Hd parent_key Hp.
  - reflexivity.
  - apply wf_dict_cons in Hw. destruct Hw as (_ & _ & Hw).
    apply dot_free_cons in Hd. destruct Hd as (_ & _ & Hd).
    rewrite flatten_items_scalar, leaves_scalar, IH by assumption.
    rewrite new_key_of_truthy by exact Hp. reflexivity.
  - apply wf_dict_cons in Hw. destruct Hw as (_ & _ & Hw).
    apply dot_free_cons in Hd. destruct Hd as (_ & _ & Hd).
    rewrite flatten_items_list, leaves_list, IH by assumption.
    rewrite new_key_of_truthy by exact Hp. reflexivity.
  - apply wf_dict_cons in Hw. destruct Hw as (_ & Hws & Hw).
    apply dot_free_cons in Hd. destruct Hd as (_ & Hds & Hd).
    specialize (Hws sub eq_refl). specialize (Hds sub eq_refl).
    rewrite flatten_items_dict, leaves_dict, IH by assumption.
    rewrite map_app. f_equal.
    rewrite flatten_eq.
    rewrite IHsub by (try assumption; apply new_key_of_dotted; exact Hp).
    rewrite dict_of_items_nodup.
    + rewrite map_map. apply map_ext_in. intros pv Hpv. cbn [fst snd].
      destruct (leaves_good sub Hds pv Hpv) as [Hne _].
      rewrite join_dot_cons by exact Hne.
      rewrite new_key_of_truthy by exact Hp.
      rewrite !string_app_assoc. reflexivity.
    + pose proof (path_keys_nodup sub
                    (new_key_of parent_key k ++ ".")%string Hws Hds) as Hnd.
      erewrite map_ext; [exact Hnd|].
      intros pv. simpl. rewrite string_app_assoc. reflexivity.
Qed.

Lemma flatten_items_top_paths (d : dict) :
  wf_dict d = true -> dot_free d = true -> named_branches d = true ->
  flatten_items d "" = map (fun pv => (join_dot (fst pv), snd pv)) (leaves d).
Proof.
  induction d as [|[k [s|l|sub]] d IH]; intros Hw Hd Hn.
  - reflexivity.
  - apply wf_dict_cons in Hw. destruct Hw as (_ & _ & Hw).
    apply dot_free_cons in Hd. destruct Hd as (_ & _ & Hd).
    simpl in Hn.
    rewrite flatten_items_scalar, leaves_scalar, IH by assumption.
    reflexivity.
  - apply wf_dict_cons in Hw. destruct Hw as (_ & _ & Hw).
    apply dot_free_cons in Hd. destruct Hd as (_ & _ & Hd).
    simpl in Hn.
    rewrite flatten_items_list, leaves_list, IH by assumption.
    reflexivity.
  - apply wf_dict_cons in Hw. destruct Hw as (_ & Hws & Hw).
    apply dot_free_cons in Hd. destruct Hd as (_ & Hds & Hd).
    specialize (Hws sub eq_refl). specialize (Hds sub eq_refl).
    simpl in Hn. apply andb_prop in Hn. destruct Hn as [Hk Hn].
    rewrite flatten_items_dict, leaves_dict, IH by assumption.
    rewrite map_app. f_equal.
    rewrite new_key_of_empty, flatten_eq.
    rewrite flatten_items_paths by assumption.
    rewrite dict_of_items_nodup.
    + rewrite map_map. apply map_ext_in. intros pv Hpv. cbn [fst snd].
      destruct (leaves_good sub Hds pv Hpv) as [Hne _].
      rewrite join_dot_cons by exact Hne. reflexivity.
    + pose proof (path_keys_nodup sub (k ++ ".")%string Hws Hds) as Hnd.
      erewrite map_ext; [exact Hnd|].
      intros pv. simpl. rewrite string_app_assoc. reflexivity.
Qed.

(** [flatten] gives one entry per leaf, in order: the dot-joined path and
    the leaf. *)
Lemma flatten_paths (d : dict) :
  wf_dict d = true -> dot_free d = true -> named_branches d = true ->
  flatten d "" = map (fun pv => (join_dot (fst pv), snd pv)) (leaves d).
Proof.
  intros Hw Hd Hn.
  rewrite flatten_eq, flatten_items_top_paths by assumption.
  apply dict_of_items_nodup. apply (path_keys_nodup d "" Hw Hd).
Qed.

(** ** Re-nesting *)

Lemma build_app (ls1 ls2 : list (list string * value)) (acc : dict) :
  build (ls1 ++ ls2) acc = build ls2 (build ls1 acc).
Proof. unfold build. apply fold_left_app. Qed.

Lemma get_fresh (d : dict) (k : string) : ~ In k (keys d) -> get d k = None.
Proof.
  induction d as [|[k1 v1] d IH]; simpl; intros H; [reflexivity|].
  destruct (String.eqb_spec k1 k) as [->|Hne]; [tauto|]. apply IH. tauto.
Qed.

Lemma set_item_last (acc : dict) (k : string) (v v' : value) :
  ~ In k (keys acc) -> set_item (acc ++ [(k, v)]) k v' = acc ++ [(k, v')].
Proof.
  induction acc as [|[k1 v1] acc IH]; simpl; intros H.
  - rewrite String.eqb_refl. reflexivity.
  - destruct (String.eqb_spec k1 k) as [->|Hne]; [tauto|].
    rewrite IH by tauto. reflexivity.
Qed.

Lemma insert_path_cons
  (k k' : string) (path : list string) (v : value) (d : dict) :
  insert_path (k :: k' :: path) v d =
  set_item d k (VDict (insert_path (k' :: path) v
                         match get d k with
                         | Some (VDict sub) => sub
                         | _ => []
                         end)).
Proof. reflexivity. Qed.

Lemma build_under_acc (k : string) (acc : dict) :
  ~ In k (keys acc) ->
  forall ls s,
    (forall pv, In pv ls -> fst pv <> []) ->
    build (map (fun pv => (k :: fst pv, snd pv)) ls) (acc ++ [(k, VDict s)])
    = acc ++ [(k, VDict (build ls s))].
Proof.
  intros Hk. induction ls as [|[p v] ls IH]; intros s Hne; [reflexivity|].
  assert (Hp : p <> []) by (apply (Hne (p, v)); left; reflexivity).
  destruct p as [|k' p]; [congruence|].
  cbn [map]. unfold build at 1. cbn [fold_left fst snd].
  rewrite insert_path_cons, get_snoc, get_fresh by exact Hk.
  rewrite String.eqb_refl, set_item_last by exact Hk.
  apply IH. intros pv Hpv. apply Hne. right. exact Hpv.
Qed.

Lemma build_under (k : string) (acc : dict) (ls : list (list string * value)) :
  ~ In k (keys acc) -> ls <> [] ->
  (forall pv, In pv ls -> fst pv <> []) ->
  build (map (fun pv => (k :: fst pv, snd pv)) ls) acc
  = acc ++ [(k, VDict (build ls []))].
Proof.
  intros Hk Hls Hne. destruct ls as [|[p v] ls]; [congruence|].
  assert (Hp : p <> []) by (apply (Hne (p, v)); left; reflexivity).
  destruct p as [|k' p]; [congruence|].
  cbn [map]. unfold build at 1. cbn [fold_left fst snd].
  rewrite insert_path_cons, get_fresh, set_item_fresh by exact Hk.
  etransitivity; [apply build_under_acc; [exact Hk|] | reflexivity].
  intros pv Hpv. apply Hne. right. exact Hpv.
Qed.

Lemma leaves_paths_not_nil (d : dict) :
  forall pv, In pv (leaves d) -> fst pv <> [].
Proof.
  intros pv H. destruct (leaves_head d pv H) as (k & p & -> & _).
  discriminate.
Qed.

(** Setting the leaves of a mapping, in order, in a mapping that has none of
    its keys appends the mapping. *)
Lemma build_leaves (d : dict) :
  wf_dict d = true -> no_empty_branch d = true ->
  forall acc,
    (forall k, In k (keys d) -> ~ In k (keys acc)) ->
    build (leaves d) acc = acc ++ d.
Proof.
  induction d as [|k s rest IH|k l rest IH|k sub rest IHsub IH]
    using dict_nested_ind; intros Hw Hn acc Hfresh.
  - simpl. rewrite app_nil_r. reflexivity.
  - apply wf_dict_cons in Hw. destruct Hw as (Hk & _ & Hw).
    apply no_empty_branch_cons in Hn. destruct Hn as (_ & Hn).
    rewrite leaves_scalar. unfold build. simpl fold_left.
    rewrite set_item_fresh by (apply Hfresh; left; reflexivity).
    fold (build (leaves rest) (acc ++ [(k, VScalar s)])).
    rewrite IH; [rewrite <- app_assoc; reflexivity | assumption..|].
    intros k' Hk' Hin. unfold keys in Hin. rewrite map_app in Hin.
    apply in_app_or in Hin. destruct Hin as [Hin|[<-|[]]].
    + apply (Hfresh k'); [right; exact Hk' | exact Hin].
    + contradiction.
  - apply wf_dict_cons in Hw. destruct Hw as (Hk & _ & Hw).
    apply no_empty_branch_cons in Hn. destruct Hn as (_ & Hn).
    rewrite leaves_list. unfold build. simpl fold_left.
    rewrite set_item_fresh by (apply Hfresh; left; reflexivity).
    fold (build (leaves rest) (acc ++ [(k, VList l)])).
    rewrite IH; [rewrite <- app_assoc; reflexivity | assumption..|].
    intros k' Hk' Hin. unfold keys in Hin. rewrite map_app in Hin.
    apply in_app_or in Hin. destruct Hin as [Hin|[<-|[]]].
    + apply (Hfresh k'); [right; exact Hk' | exact Hin].
    + contradiction.
  - apply wf_dict_cons in Hw. destruct Hw as (Hk & Hws & Hw).
    apply no_empty_branch_cons in Hn. destruct Hn as (Hns & Hn).
    specialize (Hws sub eq_refl). destruct (Hns sub eq_refl) as [Hne Hnsub].
    rewrite leaves_dict, build_app.
    rewrite build_under.
    + rewrite (IHsub Hws Hnsub []) by (intros ? ? []). simpl app at 2.
      rewrite IH; [rewrite <- app_assoc; reflexivity | assumption..|].
      intros k' Hk' Hin. unfold keys in Hin. rewrite map_app in Hin.
      apply in_app_or in Hin. destruct Hin as [Hin|[<-|[]]].
      * apply (Hfresh k'); [right; exact Hk' | exact Hin].
      * contradiction.
    + apply Hfresh. left. reflexivity.
    + apply leaves_nonempty; assumption.
    + apply leaves_paths_not_nil.
Qed.

Lemma renest_paths (ls : list (list string * value)) :
  (forall pv, In pv ls -> good_path (fst pv)) ->
  forall acc,
    fold_left (fun acc kv => insert_path (split_dot (fst kv)) (snd kv) acc)
              (map (fun pv => (join_dot (fst pv), snd pv)) ls) acc
    = build ls acc.
Proof.
  induction ls as [|[p v] ls IH]; intros Hg acc; [reflexivity|].
  simpl. rewrite split_join by (apply (Hg (p, v)); left; reflexivity).
  rewrite IH by (intros pv Hpv; apply Hg; right; exact Hpv).
  reflexivity.
Qed.

(** C8, as the code has it: for a nested mapping with distinct keys in each
    mapping, no empty mapping under a key, no dot in a key and no mapping
    under the empty key at the top, [flatten] gives one entry per leaf, in
    order, whose key is the dot-joined path of the leaf and whose value is
    the leaf; its keys do not collide; and re-nesting the result gives the
    mapping back. *)
Theorem flatten_round_trip (d : dict) :
  wf_dict d = true -> dot_free d = true ->
  no_empty_branch d = true -> named_branches d = true ->
  flatten d "" = map (fun pv => (join_dot (fst pv), snd pv)) (leaves d) /\
  NoDup (keys (flatten d "")) /\
  spec_renest (flatten d "") = d.
Proof.
  intros Hw Hd Hn Hb. rewrite flatten_paths by assumption.
  split; [reflexivity|]. split; [apply (path_keys_nodup d "" Hw Hd)|].
  unfold spec_renest. rewrite renest_paths by (apply leaves_good; exact Hd).
  apply (build_leaves d Hw Hn []). intros k _ [].
Qed.

Lemma flatten_round_trip_witness :
  wf_dict nested_doc = true /\ dot_free nested_doc = true /\
  no_empty_branch nested_doc = true /\ named_branches nested_doc = true /\
  flatten nested_doc "" =
  [("_id", VScalar (SStr "n"));
   ("headline.main", VScalar (SStr "m"));
   ("headline.kicker.text", VScalar (SStr "t"));
   ("headline.kicker.", VScalar SNull);
   ("keywords", VList [VScalar (SStr "x"); VDict []]);
   ("word_count", VScalar (SNum 120));
   ("", VScalar (SStr "e"))] /\
  spec_renest (flatten nested_doc "") = nested_doc.
Proof.
  repeat (split; [reflexivity|]).
  apply (flatten_round_trip nested_doc); reflexivity.
Defined.

(** C8 as stated fails on keys the claim does not exclude.  With a dot in a
    key, a mapping with one leaf (so no collision, and no empty mapping)
    flattens to one entry that re-nests to a different mapping.  With a
    mapping under the empty key, the key [flatten] gives is not the
    dot-joined path, and re-nesting differs as well. *)
Lemma flatten_round_trip_counterexample :
  (wf_dict dotted_key_doc = true /\
   no_empty_branch dotted_key_doc = true /\
   leaves dotted_key_doc = [(["a.b"], VScalar (SNum 1))] /\
   flatten dotted_key_doc "" = [("a.b", VScalar (SNum 1))] /\
   spec_renest (flatten dotted_key_doc "")
   = [("a", VDict [("b", VScalar (SNum 1))])] /\
   spec_renest (flatten dotted_key_doc "") <> dotted_key_doc)
  /\
  (wf_dict empty_key_doc = true /\
   no_empty_branch empty_key_doc = true /\
   leaves empty_key_doc = [([""; "a"], VScalar (SNum 1))] /\
   join_dot [""; "a"] = ".a" /\
   flatten empty_key_doc "" = [("a", VScalar (SNum 1))] /\
   flatten empty_key_doc ""
   <> map (fun pv => (join_dot (fst pv), snd pv)) (leaves empty_key_doc) /\
   spec_renest (flatten empty_key_doc "") <> empty_key_doc).
Proof.
  split.
  - repeat (split; [reflexivity|]). discriminate.
  - repeat (split; [reflexivity|]). split; discriminate.
Qed.


(** * Further properties of the code *)

(** ** [getn] on any queue *)

(** X1: [getn] either raises the empty-deque [IndexError], exactly when the
    queue holds fewer than [max 1 n] records, or returns the [max 1 n]
    records at the right end and leaves the others: the batch followed by
    what is left is the queue as it was, nothing lost and nothing twice. *)
Theorem getn_total_spec (q0 : deque) (n : Z) :
  ((List.length q0 < taken n)%nat ->
   getn q0 n = Raise (IndexError PopFromEmptyDeque))
  /\
  ((taken n <= List.length q0)%nat ->
   exists batch q1,
     getn q0 n = Ok (batch, q1) /\
     batch ++ q1 = q0 /\
     Z.of_nat (List.length batch) = Z.max 1 n).
Proof.
  unfold taken. split.
  - intros Hlt. destruct q0 as [|x q0]; [reflexivity|].
    unfold getn. simpl pop. simpl bind. apply getn_while_raises.
    simpl List.length in *. lia.
  - intros Hle.
    assert (Hne : q0 <> []) by (intros ->; simpl in Hle; lia).
    exists (firstn (taken n) q0), (skipn (taken n) q0).
    split; [apply getn_ok; [exact Hne | unfold taken in *; lia]|].
    split; [apply firstn_skipn|].
    rewrite firstn_length_le by exact Hle. unfold taken. lia.
Qed.

Lemma getn_total_spec_witness :
  getn [doc_a] 2 = Raise (IndexError PopFromEmptyDeque)
  /\
  exists batch q1,
    getn [doc_c; doc_b; doc_a] 2 = Ok (batch, q1) /\
    batch ++ q1 = [doc_c; doc_b; doc_a] /\
    Z.of_nat (List.length batch) = Z.max 1 2.
Proof.
  split.
  - apply (getn_total_spec [doc_a] 2). unfold taken. simpl. lia.
  - apply (getn_total_spec [doc_c; doc_b; doc_a] 2). unfold taken. simpl. lia.
Defined.

(** ** The result of [flatten] *)

Lemma flatten_items_leaf_values (d : dict) :
  forall parent_key kv,
    In kv (flatten_items d parent_key) -> is_leaf (snd kv) = true.
Proof.
  induction d as [|k s rest IH|k l rest IH|k sub rest IHsub IH]
    using dict_nested_ind; intros parent_key kv.
  - intros [].
  - rewrite flatten_items_scalar. intros [<-|H]; [reflexivity|].
    eapply IH. exact H.
  - rewrite flatten_items_list. intros [<-|H]; [reflexivity|].
    eapply IH. exact H.
  - rewrite flatten_items_dict, flatten_eq. intros H.
    apply in_app_or in H. destruct H as [H|H]; [|eapply IH; exact H].
    apply in_dict_of_items in H. eapply IHsub. exact H.
Qed.

Lemma set_item_keys (d : dict) (k x : string) (v : value) :
  In x (keys (set_item d k v)) -> x = k \/ In x (keys d).
Proof.
  induction d as [|[k1 v1] d IH]; simpl.
  - intros [H|[]]. left. symmetry. exact H.
  - destruct (String.eqb_spec k1 k) as [->|Hne]; simpl.
    + intros [H|H]; [left; symmetry; exact H | right; right; exact H].
    + intros [H|H]; [right; left; exact H|].
      destruct (IH H) as [H'|H']; [left; exact H' | right; right; exact H'].
Qed.

Lemma set_item_nodup (d : dict) (k : string) (v : value) :
  NoDup (keys d) -> NoDup (keys (set_item d k v)).
Proof.
  induction d as [|[k1 v1] d IH]; simpl; intros Hnd.
  - constructor; [intros [] | constructor].
  - inversion Hnd as [|? ? Hk1 Hd]; subst.
    destruct (String.eqb_spec k1 k) as [->|Hne]; simpl.
    + constructor; assumption.
    + constructor; [|apply IH; exact Hd].
      intros Hin. apply set_item_keys in Hin. destruct Hin; [congruence|].
      contradiction.
Qed.

Lemma fold_set_item_nodup (items : list (string * value)) :
  forall d0 : dict,
    NoDup (keys d0) ->
    NoDup (keys (fold_left (fun d kv => set_item d (fst kv) (snd kv))
                           items d0)).
Proof.
  induction items as [|[k v] items IH]; intros d0 Hnd; simpl; [exact Hnd|].
  apply IH. apply set_item_nodup. exact Hnd.
Qed.

(** The keys of [dict(items)] are distinct. *)
Lemma dict_of_items_keys_nodup (items : list (string * value)) :
  NoDup (keys (dict_of_items items)).
Proof. apply fold_set_item_nodup. constructor. Qed.

Lemma flat_flatten_items (f : dict) :
  Forall (fun kv => is_leaf (snd kv) = true) f -> flatten_items f "" = f.
Proof.
  induction 1 as [|[k [s|l|sub]] f Hkv _ IH].
  - reflexivity.
  - rewrite flatten_items_scalar, new_key_of_empty, IH. reflexivity.
  - rewrite flatten_items_list, new_key_of_empty, IH. reflexivity.
  - simpl in Hkv. discriminate.
Qed.

Lemma flatten_leaf_values (d : dict) (parent_key : string) :
  Forall (fun kv => is_leaf (snd kv) = true) (flatten d parent_key).
Proof.
  apply Forall_forall. intros kv H. rewrite flatten_eq in H.
  apply in_dict_of_items in H.
  eapply flatten_items_leaf_values. exact H.
Qed.

(** X2: the result of [flatten] is a single level: none of its values is a
    mapping, and its keys are distinct, whatever the nesting, the keys and
    the parent key of the argument. *)
Theorem flatten_is_flat (d : dict) (parent_key : string) :
  Forall (fun kv => is_leaf (snd kv) = true) (flatten d parent_key) /\
  NoDup (keys (flatten d parent_key)).
Proof.
  split; [apply flatten_leaf_values|].
  rewrite flatten_eq. apply dict_of_items_keys_nodup.
Qed.

(** X3: flattening twice is flattening once: [flatten] leaves a flattened
    mapping as it is. *)
Theorem flatten_idempotent (d : dict) (parent_key : string) :
  flatten (flatten d parent_key) "" = flatten d parent_key.
Proof.
  rewrite (flatten_eq (flatten d parent_key)).
  rewrite flat_flatten_items by apply flatten_leaf_values.
  apply dict_of_items_nodup.
  rewrite flatten_eq. apply dict_of_items_keys_nodup.
Qed.

Lemma flatten_items_prefixed (d : dict) :
  forall parent_key kv,
    truthy parent_key = true ->
    In kv (flatten_items d parent_key) ->
    exists rest, fst kv = (parent_key ++ "." ++ rest)%string.
Proof.
  induction d as [|k s rest IH|k l rest IH|k sub rest IHsub IH]
    using dict_nested_ind; intros parent_key kv Hp.
  - intros [].
  - rewrite flatten_items_scalar. intros [<-|H]; [|eapply IH; eassumption].
    exists k. simpl. apply new_key_of_truthy. exact Hp.
  - rewrite flatten_items_list. intros [<-|H]; [|eapply IH; eassumption].
    exists k. simpl. apply new_key_of_truthy. exact Hp.
  - rewrite flatten_items_dict, flatten_eq. intros H.
    apply in_app_or in H. destruct H as [H|H]; [|eapply IH; eassumption].
    apply in_dict_of_items in H.
    destruct (IHsub (new_key_of parent_key k) kv) as [r Hr];
      [apply new_key_of_dotted; exact Hp | exact H |].
    exists (k ++ "." ++ r)%string. rewrite Hr.
    rewrite new_key_of_truthy by exact Hp.
    rewrite !string_app_assoc. reflexivity.
Qed.

(** X4: under a non-empty parent key, every key of the result starts with
    the parent key and a dot. *)
Theorem flatten_prefixes_parent_key (d : dict) (parent_key k : string) :
  truthy parent_key = true ->
  In k (keys (flatten d parent_key)) ->
  exists rest, k = (parent_key ++ "." ++ rest)%string.
Proof.
  intros Hp Hin. unfold keys in Hin. apply in_map_iff in Hin.
  destruct Hin as (kv & <- & Hin). rewrite flatten_eq in Hin.
  apply in_dict_of_items in Hin.
  eapply flatten_items_prefixed; eassumption.
Qed.

Lemma flatten_prefixes_parent_key_witness :
  truthy "response" = true /\
  In "response.headline.kicker.text" (keys (flatten nested_doc "response")) /\
  exists rest,
    "response.headline.kicker.text" = ("response" ++ "." ++ rest)%string.
Proof.
  assert (H1 : truthy "response" = true) by reflexivity.
  assert (H2 : In "response.headline.kicker.text"
                  (keys (flatten nested_doc "response"))).
  { vm_compute. right. right. left. reflexivity. }
  split; [exact H1|]. split; [exact H2|].
  exact (flatten_prefixes_parent_key nested_doc "response"
           "response.headline.kicker.text" H1 H2).
Defined.

Lemma get_app (d1 d2 : dict) (k : string) :
  get (d1 ++ d2) k =
  match get d1 k with
  | Some v => Some v
  | None => get d2 k
  end.
Proof.
  induction d1 as [|[k1 v1] d1 IH]; simpl; [reflexivity|].
  destruct (String.eqb k1 k); [reflexivity | exact IH].
Qed.

(** X5: on two mappings put end to end, [flatten] gives, for every key, the
    value the second part gives it, and the value of the first part only
    when the second has none: of two entries that collide the later one
    wins. *)
Theorem flatten_app_lookup (d1 d2 : dict) (parent_key k : string) :
  get (flatten (d1 ++ d2) parent_key) k =
  match get (flatten d2 parent_key) k with
  | Some v => Some v
  | None => get (flatten d1 parent_key) k
  end.
Proof.
  rewrite !flatten_eq, !get_dict_of_items.
  rewrite flatten_items_app, rev_app_distr. apply get_app.
Qed.

(** ** Top-level keys and the schema *)

Lemma in_flatten_items_leaf (d : dict) (k : string) (v : value) :
  is_leaf v = true -> In (k, v) d -> In (k, v) (flatten_items d "").
Proof.
  intros Hv. induction d as [|[k1 [s1|l|sub]] d IH]; simpl In at 1.
  - intros [].
  - rewrite flatten_items_scalar, new_key_of_empty.
    intros [H|H]; [left; exact H | right; apply IH; exact H].
  - rewrite flatten_items_list, new_key_of_empty.
    intros [H|H]; [left; exact H | right; apply IH; exact H].
  - rewrite flatten_items_dict.
    intros [H|H]; [inversion H; subst; discriminate|].
    apply in_or_app. right. apply IH. exact H.
Qed.

Lemma in_keys_get (d : dict) (k : string) :
  In k (keys d) -> exists v, get d k = Some v.
Proof.
  induction d as [|[k1 v1] d IH]; simpl; [intros []|].
  destruct (String.eqb_spec k1 k) as [->|Hne].
  - intros _. exists v1. reflexivity.
  - intros [H|H]; [congruence | apply IH; exact H].
Qed.

Lemma get_in_keys (d : dict) (k : string) (v : value) :
  get d k = Some v -> In k (keys d).
Proof.
  intros H. apply get_in in H. apply (in_map fst) in H. exact H.
Qed.

(** A key of an item is a key of [dict(items)]. *)
Lemma keys_dict_of_items (items : list (string * value)) (k : string) :
  In k (keys items) -> In k (keys (dict_of_items items)).
Proof.
  intros H.
  assert (Hr : In k (keys (rev items))).
  { unfold keys in *. rewrite map_rev. apply -> in_rev. exact H. }
  destruct (in_keys_get _ _ Hr) as [v Hv].
  apply (get_in_keys _ _ v). rewrite get_dict_of_items. exact Hv.
Qed.

(** X6: a value that is not a mapping, under a top-level key without a dot,
    is in the record under the same key, unchanged, even when it is a list
    that contains mappings; this for a document with distinct keys and no
    mapping under the empty key. *)
Theorem flatten_keeps_top_leaf (d : dict) (k : string) (v : value) :
  unique_keys d = true -> named_branches d = true ->
  has_dot k = false -> is_leaf v = true ->
  get d k = Some v ->
  get (flatten d "") k = Some v.
Proof.
  intros Hu Hn Hk Hv Hget. apply get_in in Hget.
  rewrite flatten_eq, get_dict_of_items.
  apply get_in_unique.
  - apply -> in_rev. apply in_flatten_items_leaf; assumption.
  - intros v' Hv'. apply in_rev in Hv'.
    apply flatten_items_top in Hv'; [|exact Hn|exact Hk].
    eapply nodup_keys_functional;
      [apply unique_keys_nodup; exact Hu | exact Hv' | exact Hget].
Qed.

Lemma flatten_keeps_top_leaf_witness :
  unique_keys nested_doc = true /\ named_branches nested_doc = true /\
  has_dot "keywords" = false /\
  is_leaf (VList [VScalar (SStr "x"); VDict []]) = true /\
  get nested_doc "keywords" = Some (VList [VScalar (SStr "x"); VDict []]) /\
  get (flatten nested_doc "") "keywords"
  = Some (VList [VScalar (SStr "x"); VDict []]).
Proof.
  repeat (split; [reflexivity|]).
  apply (flatten_keeps_top_leaf nested_doc "keywords"); reflexivity.
Defined.

Lemma getSchema_dot_free (c : string) : In c getSchema -> has_dot c = false.
Proof.
  unfold getSchema. simpl.
  intros [<-|[<-|[<-|[<-|[<-|[<-|[<-|[]]]]]]]]; reflexivity.
Qed.

(** X7: a column of [getSchema] is a key of the record of a document exactly
    when the document has it as a top-level key whose value is not a
    mapping: [flatten] renames nothing into a schema column.  This for a
    document with no mapping under the empty key. *)
Theorem schema_column_in_record (doc : dict) (c : string) :
  In c getSchema -> named_branches doc = true ->
  (In c (keys (flatten doc "")) <->
   exists v, In (c, v) doc /\ is_leaf v = true).
Proof.
  intros Hc Hn. apply getSchema_dot_free in Hc. split.
  - intros Hin. unfold keys in Hin. apply in_map_iff in Hin.
    destruct Hin as ([k v] & Hk & Hin). simpl in Hk. subst k.
    rewrite flatten_eq in Hin. apply in_dict_of_items in Hin.
    exists v. split.
    + apply flatten_items_top; assumption.
    + apply (flatten_items_leaf_values doc "" (c, v) Hin).
  - intros (v & Hin & Hv). rewrite flatten_eq. apply keys_dict_of_items.
    apply (in_map fst) with (x := (c, v)).
    apply in_flatten_items_leaf; assumption.
Qed.

Lemma schema_column_in_record_witness :
  In "abstract" getSchema /\
  named_branches
    [("_id", VScalar (SStr "a")); ("abstract", VScalar (SStr "text"));
     ("headline", VDict [("main", VScalar (SStr "h"))])] = true /\
  In "abstract"
     (keys (flatten
              [("_id", VScalar (SStr "a")); ("abstract", VScalar (SStr "text"));
               ("headline", VDict [("main", VScalar (SStr "h"))])] "")).
Proof.
  assert (H1 : In "abstract" getSchema).
  { unfold getSchema. simpl. do 5 right. left. reflexivity. }
  split; [exact H1|]. split; [reflexivity|].
  apply (schema_column_in_record
           [("_id", VScalar (SStr "a")); ("abstract", VScalar (SStr "text"));
            ("headline", VDict [("main", VScalar (SStr "h"))])]
           "abstract" H1 eq_refl).
  exists (VScalar (SStr "text")). split; [|reflexivity].
  right. left. reflexivity.
Defined.

(** ** The trace of a run *)

(** The events of one iteration: the request first; then, when the loop goes
    on, at most a print or a yield and the sleep; when it stops, a print or
    nothing. *)
Lemma iteration_events
  (bs : Z) (st : state) (r : response) (evs : list event) (c : control) :
  iteration bs st r = (evs, c) ->
  let request := EGet (current_date_lower_bound st) (page_num st) in
  match c with
  | Continue _ =>
      (exists m, evs = [request; EPrint m; ESleep cooldown]) \/
      (exists b, evs = [request; EYield b; ESleep cooldown]) \/
      evs = [request; ESleep cooldown]
  | Break => exists m, evs = [request; EPrint m]
  | Abort _ => evs = [request]
  end.
Proof.
  intros H. destruct r as [f|status hits docs].
  - rewrite iteration_fault in H. inversion H; subst. left. eexists.
    reflexivity.
  - unfold iteration in H.
    destruct (String.eqb status "ERROR");
      [inversion H; subst; eexists; reflexivity|].
    destruct (hits =? 0); [inversion H; subst; eexists; reflexivity|].
    destruct (add_docs docs (article_id_set st) (q st)) as [[ids q1]|e];
      [|inversion H; subst; reflexivity].
    destruct (if page_num st + 1 >=? page_ceiling
              then d <- last_pub_date docs;; Ok (d, 0)
              else Ok (current_date_lower_bound st, page_num st + 1))
      as [[d p]|e]; [|inversion H; subst; reflexivity].
    destruct (Z.of_nat (List.length q1) >=? bs).
    + destruct (getn q1 bs) as [[b q2]|e]; inversion H; subst.
      * right. left. eexists. reflexivity.
      * reflexivity.
    + inversion H; subst. right. right. reflexivity.
Qed.

Lemma iteration_page_bound
  (bs : Z) (st st' : state) (r : response) (evs : list event) :
  0 <= page_num st < page_ceiling ->
  iteration bs st r = (evs, Continue st') ->
  0 <= page_num st' < page_ceiling.
Proof.
  intros Hp H. destruct r as [f|status hits docs].
  - rewrite iteration_fault in H. inversion H; subst. exact Hp.
  - apply iteration_continue_inv in H.
    destruct H as (_ & _ & ids & q1 & _ & _ & Hc & Hb & _).
    unfold page_ceiling in *.
    destruct (Z_lt_le_dec (page_num st + 1) 100) as [Hlt|Hge].
    + destruct (Hb Hlt) as [_ ->]. lia.
    + destruct (Hc Hge) as [_ ->]. lia.
Qed.

Lemma iteration_requests
  (bs : Z) (st : state) (r : response) (evs : list event) (c : control) :
  iteration bs st r = (evs, c) ->
  requests evs = [(current_date_lower_bound st, page_num st)].
Proof.
  intros H. apply iteration_events in H. destruct c as [st'| |e].
  - destruct H as [[m ->]|[[b ->]| ->]]; reflexivity.
  - destruct H as [m ->]. reflexivity.
  - rewrite H. reflexivity.
Qed.

Lemma run_page_bound (bs : Z) (script : list response) :
  forall st,
    0 <= page_num st < page_ceiling ->
    Forall (fun dp => 0 <= snd dp < page_ceiling)
           (requests (fst (run bs script st))) /\
    forall st',
      snd (run bs script st) = Running st' ->
      0 <= page_num st' < page_ceiling.
Proof.
  induction script as [|r script IH]; intros st Hp; cbn [run].
  - simpl. split; [constructor|]. intros st' H. inversion H; subst. exact Hp.
  - destruct (iteration bs st r) as [evs c] eqn:Hit.
    pose proof (iteration_requests _ _ _ _ _ Hit) as Hreq.
    destruct c as [st1| |e].
    + pose proof (iteration_page_bound _ _ _ _ _ Hp Hit) as Hp1.
      destruct (IH st1 Hp1) as [Hall Hrun].
      destruct (run bs script st1) as [evs' o]. simpl in *.
      rewrite requests_app, Hreq. split; [|exact Hrun].
      constructor; [exact Hp | exact Hall].
    + simpl. rewrite Hreq. split; [|discriminate].
      constructor; [exact Hp | constructor].
    + simpl. rewrite Hreq. split; [|discriminate].
      constructor; [exact Hp | constructor].
Qed.

(** X8: whatever the responses, faults included, every request of the
    generator carries a page between 0 and 99, and the page cursor of a
    running generator is in that range. *)
Theorem page_always_below_ceiling (batch_size : Z) (script : list response) :
  Forall (fun dp => 0 <= snd dp <= 99)
         (requests (fst (getDataBatch batch_size script))) /\
  forall st,
    snd (getDataBatch batch_size script) = Running st ->
    0 <= page_num st <= 99.
Proof.
  unfold getDataBatch.
  destruct (run_page_bound batch_size script initial_state) as [Hall Hrun].
  { simpl. unfold page_ceiling. lia. }
  unfold page_ceiling in *. split.
  - eapply Forall_impl; [|exact Hall]. simpl. intros dp H. lia.
  - intros st H. apply Hrun in H. lia.
Qed.

Lemma paced_continue
  (bs : Z) (st st' : state) (r : response) (evs rest : list event) :
  iteration bs st r = (evs, Continue st') ->
  paced_from true (evs ++ rest) = paced_from true rest /\
  sleeps evs = [cooldown].
Proof.
  intros H. apply iteration_events in H.
  destruct H as [[m ->]|[[b ->]| ->]]; split; reflexivity.
Qed.

Lemma paced_stop
  (bs : Z) (st : state) (r : response) (evs : list event) (c : control) :
  iteration bs st r = (evs, c) ->
  (c = Break \/ exists e, c = Abort e) ->
  paced_from true evs = true /\ sleeps evs = [].
Proof.
  intros H Hc. apply iteration_events in H.
  destruct Hc as [->|[e ->]].
  - destruct H as [m ->]. split; reflexivity.
  - rewrite H. split; reflexivity.
Qed.

(** X9: in every run every request but the first comes after a sleep of 12
    seconds since the request before it; every sleep is of 12 seconds; and
    there is one sleep per request, less the last request of a generator
    that has ended or aborted. *)
Theorem requests_are_paced
  (batch_size : Z) (script : list response) (st : state) :
  paced_from true (fst (run batch_size script st)) = true /\
  Forall (fun s => s = 12) (sleeps (fst (run batch_size script st))) /\
  List.length (requests (fst (run batch_size script st))) =
  (List.length (sleeps (fst (run batch_size script st)))
   + stopped (snd (run batch_size script st)))%nat.
Proof.
  change 12 with cooldown. revert st.
  induction script as [|r script IH]; intros st; cbn [run].
  - repeat split. constructor.
  - destruct (iteration batch_size st r) as [evs c] eqn:Hit.
    pose proof (iteration_requests _ _ _ _ _ Hit) as Hreq.
    destruct c as [st1| |e].
    + destruct (IH st1) as (Hp & Hs & Hn).
      destruct (run batch_size script st1) as [evs' o]. simpl in *.
      destruct (paced_continue _ _ _ _ _ evs' Hit) as [Hp1 Hs1].
      rewrite Hp1, sleeps_app, requests_app, Hs1, Hreq.
      split; [exact Hp|]. split.
      * constructor; [reflexivity | exact Hs].
      * simpl. rewrite Hn. reflexivity.
    + destruct (paced_stop _ _ _ _ _ Hit (or_introl eq_refl)) as [Hp Hs].
      simpl. rewrite Hp, Hs, Hreq. repeat split. constructor.
    + destruct (paced_stop _ _ _ _ _ Hit (or_intror (ex_intro _ e eq_refl)))
        as [Hp Hs].
      simpl. rewrite Hp, Hs, Hreq. repeat split. constructor.
Qed.

(** X10: a run yields at most one batch per reply received, and none for a
    fault: the batches are never more than the replies. *)
Theorem batches_at_most_replies
  (batch_size : Z) (script : list response) (st : state) :
  (List.length (batches (fst (run batch_size script st)))
   <= List.length (filter is_reply script))%nat.
Proof.
  revert st.
  induction script as [|r script IH]; intros st; cbn [run].
  - simpl. lia.
  - pose proof (iteration_batches batch_size st r) as [Hone _].
    assert (Hf : is_reply r = false ->
                 batches (fst (iteration batch_size st r)) = []).
    { destruct r; [reflexivity | discriminate]. }
    destruct (iteration batch_size st r) as [evs c]. simpl in Hone, Hf.
    assert (Hevs : (List.length (batches evs)
                    <= List.length (filter is_reply [r]))%nat).
    { simpl. destruct (is_reply r); simpl; [exact Hone|].
      rewrite Hf by reflexivity. simpl. lia. }
    change (r :: script) with ([r] ++ script).
    rewrite filter_app, length_app.
    destruct c as [st1| |e]; simpl fst.
    + specialize (IH st1). destruct (run batch_size script st1) as [evs' o].
      simpl in *. rewrite batches_app, length_app. lia.
    + lia.
    + lia.
Qed.

(** X11: a fault anywhere among the responses, not only before the first
    reply, changes neither the batches yielded nor the way the run ends. *)
Theorem fault_anywhere_is_transparent
  (batch_size : Z) (s1 s2 : list response) (f : value) (st : state) :
  batches (fst (run batch_size (s1 ++ Fault f :: s2) st)) =
  batches (fst (run batch_size (s1 ++ s2) st)) /\
  snd (run batch_size (s1 ++ Fault f :: s2) st) =
  snd (run batch_size (s1 ++ s2) st).
Proof.
  rewrite !run_app.
  destruct (run batch_size s1 st) as [e1 [st1| |e]];
    [|split; reflexivity..].
  cbn [run]. rewrite iteration_fault.
  destruct (run batch_size s2 st1) as [e2 o]. simpl.
  rewrite !batches_app. simpl. split; reflexivity.
Qed.

(** ** What the loop buffers *)

(** The [for doc in docs] loop, exactly: the records of the new documents go
    on the right end of the queue, their ids into the seen set, and the
    documents after them are judged against the set so extended. *)
Lemma add_docs_exact (docs : list dict) :
  forall ids q0 ids1 q1,
    add_docs docs ids q0 = Ok (ids1, q1) ->
    q1 = rev (map (fun d => flatten d "") (new_docs ids docs)) ++ q0 /\
    map Ok ids1 = rev (map doc_id (new_docs ids docs)) ++ map Ok ids /\
    forall more,
      new_docs ids (docs ++ more) = new_docs ids docs ++ new_docs ids1 more.
Proof.
  induction docs as [|doc docs IH]; intros ids q0 ids1 q1; simpl.
  - intros H. inversion H; subst. repeat split.
  - destruct (doc_id doc) as [i|e] eqn:Hid; simpl; [|discriminate].
    destruct (in_set i ids) eqn:Hi; simpl.
    + intros H. apply IH. exact H.
    + intros H. destruct (IH _ _ _ _ H) as (Hq & Hids & Hmore).
      split; [|split].
      * rewrite Hq. simpl. rewrite <- app_assoc. reflexivity.
      * rewrite Hids. simpl. rewrite Hid, <- app_assoc. reflexivity.
      * intros more. rewrite Hmore. reflexivity.
Qed.

Lemma run_conserves (bs : Z) (script : list response) :
  forall st evs st',
    run bs script st = (evs, Running st') ->
    Permutation
      (List.concat (batches evs) ++ q st')
      (map (fun d => flatten d "")
           (new_docs (article_id_set st) (fetched script)) ++ q st) /\
    map Ok (article_id_set st') =
    rev (map doc_id (new_docs (article_id_set st) (fetched script)))
    ++ map Ok (article_id_set st).
Proof.
  induction script as [|r script IH]; intros st evs st'; cbn [run].
  - intros H. inversion H; subst. simpl. split; reflexivity.
  - destruct (iteration bs st r) as [evs1 [st1| |e]] eqn:Hit;
      [|discriminate..].
    destruct (run bs script st1) as [evs2 o] eqn:Hrun.
    intros H. inversion H; subst. clear H.
    destruct (IH _ _ _ Hrun) as [Hperm Hids].
    destruct r as [f|status hits docs].
    + rewrite iteration_fault in Hit. inversion Hit; subst.
      simpl. exact (conj Hperm Hids).
    + apply iteration_continue_inv in Hit.
      destruct Hit as (_ & _ & ids & q1 & Hadd & Hset & _ & _ & Hy).
      destruct (add_docs_exact _ _ _ _ _ Hadd) as (Hq1 & Hids1 & Hmore).
      simpl fetched. change (flat_map docs_of script) with (fetched script).
      rewrite Hmore. rewrite Hset in *.
      split.
      * assert (Hb : List.concat (batches evs1) ++ q st1 = q1).
        { destruct Hy as [(_ & -> & -> & _) | (_ & -> & ->)]; simpl.
          - rewrite app_nil_r. apply firstn_skipn.
          - reflexivity. }
        rewrite batches_app, concat_app, <- app_assoc.
        rewrite Hperm.
        rewrite (Permutation_app_comm
                   (map (fun d => flatten d "") (new_docs ids (fetched script)))
                   (q st1)).
        rewrite app_assoc, Hb, Hq1, map_app.
        rewrite <- (Permutation_rev
                      (map (fun d => flatten d "")
                           (new_docs (article_id_set st) docs))).
        rewrite <- !app_assoc.
        apply Permutation_app_head.
        rewrite (Permutation_app_comm (q st)). reflexivity.
      * rewrite Hids, Hids1, map_app, rev_app_distr, app_assoc. reflexivity.
Qed.

(** X12: while the generator runs, no buffered document is lost or doubled:
    the records yielded so far together with the records still in the queue
    are, up to order, the flattenings of the documents fetched whose id was
    new when they came, and the seen set holds exactly the ids of those
    documents. *)
Theorem run_conserves_records
  (batch_size : Z) (script : list response) (evs : list event) (st : state) :
  getDataBatch batch_size script = (evs, Running st) ->
  Permutation
    (List.concat (batches evs) ++ q st)
    (map (fun d => flatten d "") (new_docs [] (fetched script))) /\
  map Ok (article_id_set st) =
  rev (map doc_id (new_docs [] (fetched script))).
Proof.
  intros H. apply run_conserves in H. simpl in H.
  rewrite !app_nil_r in H. exact H.
Qed.

Lemma run_conserves_records_witness :
  exists evs st,
    getDataBatch 2 [Reply "OK" 9 [doc_a; doc_b; doc_a];
                    Fault sample_fault;
                    Reply "OK" 9 [doc_b; doc_c]] = (evs, Running st) /\
    Permutation
      (List.concat (batches evs) ++ q st)
      (map (fun d => flatten d "")
           (new_docs [] (fetched [Reply "OK" 9 [doc_a; doc_b; doc_a];
                                  Fault sample_fault;
                                  Reply "OK" 9 [doc_b; doc_c]]))).
Proof.
  eexists. eexists. split; [vm_compute; reflexivity|].
  eapply (run_conserves_records 2
            [Reply "OK" 9 [doc_a; doc_b; doc_a];
             Fault sample_fault;
             Reply "OK" 9 [doc_b; doc_c]]).
  vm_compute. reflexivity.
Defined.

Lemma add_docs_seen (docs : list dict) :
  forall ids q0,
    (forall d, In d docs -> exists i, doc_id d = Ok i /\ In i ids) ->
    add_docs docs ids q0 = Ok (ids, q0).
Proof.
  induction docs as [|doc docs IH]; intros ids q0 H; simpl; [reflexivity|].
  destruct (H doc (or_introl eq_refl)) as (i & -> & Hi). simpl.
  apply in_set_true in Hi. rewrite Hi. simpl.
  apply IH. intros d Hd. apply H. right. exact Hd.
Qed.

Lemma add_docs_all_seen (docs : list dict) :
  forall ids q0 ids1 q1,
    add_docs docs ids q0 = Ok (ids1, q1) ->
    incl ids ids1 /\
    forall d, In d docs -> exists i, doc_id d = Ok i /\ In i ids1.
Proof.
  induction docs as [|doc docs IH]; intros ids q0 ids1 q1; simpl.
  - intros H. inversion H; subst. split; [apply incl_refl | intros d []].
  - destruct (doc_id doc) as [i|e] eqn:Hid; simpl; [|discriminate].
    destruct (in_set i ids) eqn:Hi; simpl; intros H;
      destruct (IH _ _ _ _ H) as [Hincl Hall].
    + split; [exact Hincl|]. intros d [<-|Hd]; [|apply Hall; exact Hd].
      exists i. split; [exact Hid|]. apply Hincl. apply in_set_true. exact Hi.
    + split; [intros x Hx; apply Hincl; right; exact Hx|].
      intros d [<-|Hd]; [|apply Hall; exact Hd].
      exists i. split; [exact Hid|]. apply Hincl. left. reflexivity.
Qed.

(** X13: a page that comes a second time buffers nothing: after the loop
    over [docs], the same loop over the same documents leaves the seen set
    and the queue, whatever it holds by then, as they are.  This is what
    makes the overlap of pages after a change of the date bound harmless. *)
Theorem add_docs_again_is_noop
  (docs : list dict) (ids ids1 : list scalar) (q0 q1 q2 : deque) :
  add_docs docs ids q0 = Ok (ids1, q1) ->
  add_docs docs ids1 q2 = Ok (ids1, q2).
Proof.
  intros H. apply add_docs_seen.
  apply (add_docs_all_seen docs ids q0 ids1 q1 H).
Qed.

Lemma add_docs_again_is_noop_witness :
  add_docs [doc_a; doc_b] [] [] =
  Ok ([SStr "b"; SStr "a"], [flatten doc_b ""; flatten doc_a ""]) /\
  add_docs [doc_a; doc_b] [SStr "b"; SStr "a"] [flatten doc_c ""] =
  Ok ([SStr "b"; SStr "a"], [flatten doc_c ""]).
Proof.
  assert (H : add_docs [doc_a; doc_b] [] [] =
              Ok ([SStr "b"; SStr "a"], [flatten doc_b ""; flatten doc_a ""]))
    by reflexivity.
  split; [exact H|].
  exact (add_docs_again_is_noop _ _ _ _ _ [flatten doc_c ""] H).
Defined.

(** ** Documents that lack a key *)

Lemma add_docs_raises_at (docs1 : list dict) (doc : dict) (docs2 : list dict)
  (e : exn) :
  forallb has_id docs1 = true -> doc_id doc = Raise e ->
  forall ids q0, add_docs (docs1 ++ doc :: docs2) ids q0 = Raise e.
Proof.
  intros H1 He. induction docs1 as [|d docs1 IH]; intros ids q0; simpl.
  - rewrite He. reflexivity.
  - simpl in H1. apply andb_prop in H1. destruct H1 as [Hd H1].
    unfold has_id in Hd. destruct (doc_id d) as [i|e']; [|discriminate].
    simpl. destruct (negb (in_set i ids)); apply IH; exact H1.
Qed.

(** X14: a document whose ['_id'] is missing, or is a list or a mapping,
    aborts the generator, with [KeyError] or [TypeError], in the iteration
    that receives it: nothing is yielded in that iteration, not even from a
    queue that holds enough records, and no sleep follows. *)
Theorem bad_id_aborts
  (batch_size : Z) (st : state) (status : string) (hits : Z)
  (docs1 : list dict) (doc : dict) (docs2 : list dict) (e : exn)
  (rest : list response) :
  status <> "ERROR" -> hits <> 0 ->
  forallb has_id docs1 = true -> doc_id doc = Raise e ->
  run batch_size (Reply status hits (docs1 ++ doc :: docs2) :: rest) st
  = ([EGet (current_date_lower_bound st) (page_num st)], Aborted e)
  /\
  (get doc "_id" = None -> e = KeyError "_id")
  /\
  (forall v, get doc "_id" = Some v -> e = TypeError).
Proof.
  intros Hs Hh H1 He. split; [|split].
  - cbn [run]. unfold iteration.
    destruct (String.eqb_spec status "ERROR"); [contradiction|].
    destruct (Z.eqb_spec hits 0); [contradiction|].
    rewrite (add_docs_raises_at docs1 doc docs2 e H1 He). reflexivity.
  - intros Hg. unfold doc_id in He. rewrite Hg in He. inversion He.
    reflexivity.
  - intros v Hg. unfold doc_id in He. rewrite Hg in He.
    destruct v; inversion He; reflexivity.
Qed.

Lemma bad_id_aborts_witness :
  run 1 [Reply "OK" 3 ([doc_a] ++ [("pub_date", VScalar (SStr "2021"))]
                              :: [doc_b]);
         Reply "OK" 3 [doc_c]]
      (mkState (VScalar (SStr "0000-01-01")) 5 [SStr "z"] [doc_d])
  = ([EGet (VScalar (SStr "0000-01-01")) 5], Aborted (KeyError "_id")).
Proof.
  assert (Hs : "OK" <> "ERROR") by discriminate.
  assert (Hh : 3 <> 0) by lia.
  apply (bad_id_aborts 1
           (mkState (VScalar (SStr "0000-01-01")) 5 [SStr "z"] [doc_d])
           "OK" 3 [doc_a] [("pub_date", VScalar (SStr "2021"))] [doc_b]
           (KeyError "_id") [Reply "OK" 3 [doc_c]] Hs Hh);
    reflexivity.
Defined.

(** X15: the publication date of the last document is read only when the
    page cursor reaches the ceiling.  There, a last document without
    ['pub_date'], or with one that is neither a string nor a list, aborts
    the generator with that error; below the ceiling the same reply is
    processed and the loop goes on. *)
Theorem bad_date_aborts_at_ceiling
  (batch_size : Z) (st : state) (status : string) (hits : Z)
  (docs : list dict) (e : exn) (rest : list response) :
  status <> "ERROR" -> hits <> 0 ->
  forallb has_id docs = true -> last_pub_date docs = Raise e ->
  (page_ceiling <= page_num st + 1 ->
   run batch_size (Reply status hits docs :: rest) st
   = ([EGet (current_date_lower_bound st) (page_num st)], Aborted e))
  /\
  (page_num st + 1 < page_ceiling -> 1 <= batch_size ->
   exists evs st',
     iteration batch_size st (Reply status hits docs) = (evs, Continue st') /\
     page_num st' = page_num st + 1 /\
     current_date_lower_bound st' = current_date_lower_bound st).
Proof.
  intros Hs Hh Hids He.
  destruct (add_docs_ok docs Hids (article_id_set st) (q st))
    as (ids & q1 & Hadd).
  split.
  - intros Hp. cbn [run]. unfold iteration.
    destruct (String.eqb_spec status "ERROR"); [contradiction|].
    destruct (Z.eqb_spec hits 0); [contradiction|].
    rewrite Hadd.
    destruct (Z.geb_spec (page_num st + 1) page_ceiling); [|lia].
    rewrite He. reflexivity.
  - intros Hp Hbs. unfold iteration.
    destruct (String.eqb_spec status "ERROR"); [contradiction|].
    destruct (Z.eqb_spec hits 0); [contradiction|].
    rewrite Hadd.
    destruct (Z.geb_spec (page_num st + 1) page_ceiling); [lia|].
    destruct (Z.of_nat (List.length q1) >=? batch_size) eqn:Hlen.
    + rewrite getn_ok.
      * eexists. eexists. split; [reflexivity|]. split; reflexivity.
      * intros ->. apply Z.geb_le in Hlen. simpl in Hlen. lia.
      * apply Z.geb_le in Hlen. exact Hlen.
    + eexists. eexists. split; [reflexivity|]. split; reflexivity.
Qed.

Lemma bad_date_aborts_at_ceiling_witness :
  run 2 [Reply "OK" 3 [doc_a; [("_id", VScalar (SStr "n"))]]]
      (mkState (VScalar (SStr "0000-01-01")) 99 [] [])
  = ([EGet (VScalar (SStr "0000-01-01")) 99], Aborted (KeyError "pub_date"))
  /\
  exists evs st',
    iteration 2 (mkState (VScalar (SStr "0000-01-01")) 98 [] [])
              (Reply "OK" 3 [doc_a; [("_id", VScalar (SStr "n"))]])
    = (evs, Continue st') /\
    page_num st' = 98 + 1 /\
    current_date_lower_bound st' = VScalar (SStr "0000-01-01").
Proof.
  assert (Hs : "OK" <> "ERROR") by discriminate.
  assert (Hh : 3 <> 0) by lia.
  split.
  - apply (bad_date_aborts_at_ceiling 2
             (mkState (VScalar (SStr "0000-01-01")) 99 [] [])
             "OK" 3 [doc_a; [("_id", VScalar (SStr "n"))]]
             (KeyError "pub_date") [] Hs Hh eq_refl eq_refl).
    simpl. unfold page_ceiling. lia.
  - apply (bad_date_aborts_at_ceiling 2
             (mkState (VScalar (SStr "0000-01-01")) 98 [] [])
             "OK" 3 [doc_a; [("_id", VScalar (SStr "n"))]]
             (KeyError "pub_date") [] Hs Hh eq_refl eq_refl).
    + simpl. unfold page_ceiling. lia.
    + lia.
Defined.

(** ** The records and the loop that prints them *)



Lemma flatten_has_id (doc : dict) (i : scalar) :
  doc_id doc = Ok i -> exists v, get (flatten doc "") "_id" = Some v.
Proof.
  intros Hid. unfold doc_id in Hid.
  destruct (get doc "_id") as [[s|l|sub]|] eqn:Hget; inversion Hid; subst.
  apply get_in in Hget. apply in_keys_get.
  rewrite flatten_eq. apply keys_dict_of_items.
  apply (in_map fst) with (x := ("_id", VScalar i)).
  apply in_flatten_items_leaf; [reflexivity | exact Hget].
Qed.


Lemma delivered_have_id (pool : list dict) :
  forall records ids,
    Forall2 (delivers pool) records ids ->
    Forall (fun r => exists v, get r "_id" = Some v) records.
Proof.
  intros records ids H. induction H as [|r i records ids Hr _ IH];
    constructor; [|exact IH].
  destruct Hr as (doc & _ & Hid & ->). eapply flatten_has_id. exact Hid.
Qed.


(** X16: every record the generator yields has an ['_id'] key, so
    [item['_id']] in the caller never raises. *)
Theorem yielded_records_have_id (batch_size : Z) (script : list response) :
  Forall (fun r => exists v, get r "_id" = Some v)
         (List.concat (batches (fst (getDataBatch batch_size script)))).
Proof.
  unfold getDataBatch.
  destruct (run_dedup (fetched script) batch_size script (incl_refl _)
                      initial_state [] (dedup_inv_initial _))
    as [(ids & Hids & _) _].
  simpl in Hids. eapply delivered_have_id. exact Hids.
Qed.

Lemma print_items_ok (batch : list dict) :
  Forall (fun r => (exists v, get r "_id" = Some v) /\
                   (exists v, get r "headline.main" = Some v)) batch ->
  snd (print_items batch) = None /\
  filter is_header (fst (print_items batch)) = [] /\
  List.length (fst (print_items batch)) = List.length batch.
Proof.
  induction 1 as [|r batch [[i Hi] [h Hh]] _ IH]; simpl.
  - repeat split.
  - unfold getitem. rewrite Hi, Hh.
    destruct (print_items batch) as [ls o]. simpl in *.
    destruct IH as (Ho & Hf & Hl). repeat split; try assumption.
    rewrite Hl. reflexivity.
Qed.

Lemma print_items_raises (batch : list dict) (e : exn) :
  snd (print_items batch) = Some e ->
  Exists (fun r => (get r "_id" = None /\ e = KeyError "_id") \/
                   (get r "headline.main" = None /\
                    e = KeyError "headline.main")) batch.
Proof.
  induction batch as [|r batch IH]; simpl; [discriminate|].
  unfold getitem.
  destruct (get r "_id") as [i|] eqn:Hi.
  - destruct (get r "headline.main") as [h|] eqn:Hh.
    + destruct (print_items batch) as [ls o]. simpl in *. intros H.
      apply Exists_cons_tl. apply IH. exact H.
    + simpl. intros H. inversion H. apply Exists_cons_hd. right.
      split; [exact Hh | reflexivity].
  - simpl. intros H. inversion H. apply Exists_cons_hd. left.
    split; [exact Hi | reflexivity].
Qed.

Lemma main_loop_raises (bs : list (list dict)) :
  forall idx e,
    snd (main_loop idx bs) = Some e ->
    Exists (fun r => (get r "_id" = None /\ e = KeyError "_id") \/
                     (get r "headline.main" = None /\
                      e = KeyError "headline.main")) (List.concat bs).
Proof.
  induction bs as [|batch bs IH]; intros idx e; simpl; [discriminate|].
  destruct (print_items batch) as [ls [e'|]] eqn:Hp.
  - simpl. intros H. inversion H; subst. apply Exists_app. left.
    apply print_items_raises. rewrite Hp. reflexivity.
  - specialize (IH (idx + 1) e).
    destruct (main_loop (idx + 1) bs) as [ls' o]. simpl in *. intros H.
    apply Exists_app. right. apply IH. exact H.
Qed.


Lemma main_loop_no_error (bs : list (list dict)) :
  Forall (fun r => (exists v, get r "_id" = Some v) /\
                   (exists v, get r "headline.main" = Some v))
         (List.concat bs) ->
  forall idx, snd (main_loop idx bs) = None.
Proof.
  induction bs as [|batch bs IH]; intros Hall idx; [reflexivity|].
  simpl in Hall. apply Forall_app in Hall. destruct Hall as [Hbatch Hrest].
  destruct (print_items_ok batch Hbatch) as (Ho & _ & _).
  cbn [main_loop]. destruct (print_items batch) as [ls o]. simpl in Ho.
  subst o. specialize (IH Hrest (idx + 1)).
  destruct (main_loop (idx + 1) bs) as [ls' o']. exact IH.
Qed.

(** X17: the loop that prints the batches completes when every record of
    every batch has the keys ['_id'] and ['headline.main']; the only
    exceptions it raises itself are the [KeyError] of one of these two keys,
    on a record that lacks it. *)
Theorem main_loop_key_errors (idx : Z) (bs : list (list dict)) :
  (Forall (fun r => (exists v, get r "_id" = Some v) /\
                    (exists v, get r "headline.main" = Some v))
          (List.concat bs) ->
   snd (main_loop idx bs) = None)
  /\
  (forall e,
      snd (main_loop idx bs) = Some e ->
      Exists (fun r => (get r "_id" = None /\ e = KeyError "_id") \/
                       (get r "headline.main" = None /\
                        e = KeyError "headline.main")) (List.concat bs)).
Proof.
  split.
  - intros H. apply main_loop_no_error. exact H.
  - intros e. apply main_loop_raises.
Qed.

Lemma main_loop_key_errors_witness :
  snd (main_loop 0 [[flatten doc_b ""; flatten doc_a ""]]) = None
  /\
  Exists (fun r => (get r "_id" = None /\
                    KeyError "headline.main" = KeyError "_id") \/
                   (get r "headline.main" = None /\
                    KeyError "headline.main" = KeyError "headline.main"))
         (List.concat [[flatten doc_b ""; [("_id", VScalar (SStr "x"))]]]).
Proof.
  split.
  - apply (main_loop_key_errors 0 [[flatten doc_b ""; flatten doc_a ""]]).
    repeat constructor; eexists; reflexivity.
  - apply (main_loop_key_errors 0
             [[flatten doc_b ""; [("_id", VScalar (SStr "x"))]]]).
    reflexivity.
Defined.




(** ** The end of the results and the queue *)

(** X19: the generator never flushes its queue.  When a reply with status
    ["ERROR"] or zero hits ends the run, the records then in the queue are
    not yielded: the records delivered by the whole run together with those
    records are, up to order, the flattenings of the new documents
    fetched. *)
Theorem end_of_results_drops_queue
  (batch_size : Z) (pre : list response) (evs : list event) (st1 : state)
  (status : string) (hits : Z) (docs : list dict) (rest : list response) :
  getDataBatch batch_size pre = (evs, Running st1) ->
  status = "ERROR" \/ hits = 0 ->
  snd (getDataBatch batch_size (pre ++ Reply status hits docs :: rest))
  = Exhausted
  /\
  Permutation
    (List.concat
       (batches
          (fst (getDataBatch batch_size
                             (pre ++ Reply status hits docs :: rest))))
     ++ q st1)
    (map (fun d => flatten d "") (new_docs [] (fetched pre))).
Proof.
  unfold getDataBatch. intros Hpre Hend.
  rewrite run_app, Hpre. cbn [run].
  destruct (iteration_break batch_size st1 status hits docs Hend) as [m ->].
  simpl. split; [reflexivity|].
  rewrite batches_app. simpl. rewrite app_nil_r.
  destruct (run_conserves _ _ _ _ _ Hpre) as [Hperm _].
  simpl in Hperm. rewrite app_nil_r in Hperm. exact Hperm.
Qed.

Lemma end_of_results_drops_queue_witness :
  exists evs st1,
    getDataBatch 2 [Reply "OK" 3 [doc_a; doc_b; doc_c]] = (evs, Running st1) /\
    q st1 = [flatten doc_a ""] /\
    snd (getDataBatch 2 ([Reply "OK" 3 [doc_a; doc_b; doc_c]]
                         ++ Reply "OK" 0 [] :: [])) = Exhausted /\
    batches (fst (getDataBatch 2 ([Reply "OK" 3 [doc_a; doc_b; doc_c]]
                                  ++ Reply "OK" 0 [] :: [])))
    = [[flatten doc_c ""; flatten doc_b ""]].
Proof.
  eexists. eexists. split; [vm_compute; reflexivity|].
  split; [reflexivity|].
  split; [|vm_compute; reflexivity].
  eapply (end_of_results_drops_queue 2 [Reply "OK" 3 [doc_a; doc_b; doc_c]]
            _ _ "OK" 0 [] []).
  - vm_compute. reflexivity.
  - right. reflexivity.
Defined.

(** ** The URL of a request *)

Lemma has_amp_append (a b : string) :
  has_amp (a ++ b) = has_amp a || has_amp b.
Proof.
  induction a as [|c a IH]; simpl; [reflexivity|].
  rewrite IH, orb_assoc. reflexivity.
Qed.

Lemma string_of_uint_no_amp (d : Decimal.uint) :
  has_amp (DecimalString.NilEmpty.string_of_uint d) = false.
Proof. induction d; simpl; try assumption; reflexivity. Qed.

Lemma str_of_int_no_amp (n : Z) : has_amp (str_of_int n) = false.
Proof.
  unfold str_of_int, DecimalString.NilZero.string_of_int,
    DecimalString.NilZero.string_of_uint.
  destruct (Z.to_int n) as [d|d]; destruct d;
    try reflexivity; simpl; apply string_of_uint_no_amp.
Qed.

Lemma to_int_proper (n : Z) :
  Z.to_int n <> Decimal.Pos Decimal.Nil /\
  Z.to_int n <> Decimal.Neg Decimal.Nil.
Proof.
  destruct n as [|p|p]; simpl; split; try discriminate;
    intros H; inversion H as [Hp];
    exact (DecimalPos.Unsigned.to_uint_nonnil p Hp).
Qed.

(** Two integers with the same decimal writing are equal. *)
Lemma str_of_int_inj (n m : Z) : str_of_int n = str_of_int m -> n = m.
Proof.
  unfold str_of_int. intros H.
  destruct (to_int_proper n) as [Hn1 Hn2].
  destruct (to_int_proper m) as [Hm1 Hm2].
  apply (f_equal DecimalString.NilZero.int_of_string) in H.
  rewrite !DecimalString.NilZero.isi in H by assumption.
  inversion H as [Hi].
  rewrite <- (DecimalZ.of_to n), <- (DecimalZ.of_to m), Hi. reflexivity.
Qed.

(** The text before the last ["&page="] and the text after it are read off
    the whole, when the text after it has no ["&"]. *)
Lemma page_suffix_inj (d1 : string) :
  forall d2 s1 s2,
    has_amp s1 = false -> has_amp s2 = false ->
    (d1 ++ "&page=" ++ s1 = d2 ++ "&page=" ++ s2)%string ->
    d1 = d2 /\ s1 = s2.
Proof.
  induction d1 as [|c d1 IH]; intros d2 s1 s2 H1 H2 H.
  - destruct d2 as [|c2 d2].
    + simpl in H. inversion H. split; reflexivity.
    + simpl in H. inversion H as [[Hc Ht]].
      apply (f_equal has_amp) in Ht. rewrite has_amp_append in Ht.
      simpl in Ht. rewrite H1, orb_true_r in Ht. discriminate.
  - destruct d2 as [|c2 d2].
    + simpl in H. inversion H as [[Hc Ht]].
      apply (f_equal has_amp) in Ht. rewrite has_amp_append in Ht.
      simpl in Ht. rewrite H2, orb_true_r in Ht. discriminate.
    + simpl in H. inversion H as [[Hc Ht]].
      destruct (IH d2 s1 s2 H1 H2 Ht) as [-> ->]. split; reflexivity.
Qed.

(** X20: with the same arguments, two requests have the same URL only when
    they have the same date bound and the same page: no two pages of a date
    bound, and no two date bounds, are fetched under one URL, whatever
    characters the date holds. *)
Theorem request_url_injective
  (args : arguments) (date1 date2 : string) (page1 page2 : Z) :
  parameterised_api_url args date1 page1
  = parameterised_api_url args date2 page2 ->
  date1 = date2 /\ page1 = page2.
Proof.
  unfold parameterised_api_url, filter_query. intros H.
  do 8 apply string_app_inj in H.
  rewrite !string_app_assoc in H.
  apply string_app_inj in H.
  apply page_suffix_inj in H; try apply str_of_int_no_amp.
  destruct H as [Hd Hp]. split; [exact Hd|]. apply str_of_int_inj. exact Hp.
Qed.

Lemma request_url_injective_witness :
  parameterised_api_url main_args "0000-01-01" 7
  = ("https://api.nytimes.com/svc/search/v2/articlesearch.json"
     ++ "?q=Silicon Valley&api-key=KEY&sort=oldest"
     ++ "&fq=pub_date:>=0000-01-01&page=7")%string
  /\
  parameterised_api_url main_args "0000-01-01" 7
  = parameterised_api_url main_args "0000-01-01" (3 + 4)
  /\
  "0000-01-01" = "0000-01-01" /\ 7 = 3 + 4.
Proof.
  assert (H : parameterised_api_url main_args "0000-01-01" 7
              = parameterised_api_url main_args "0000-01-01" (3 + 4))
    by reflexivity.
  split; [reflexivity|]. split; [exact H|].
  exact (request_url_injective main_args _ _ _ _ H).
Defined.

(** ** A batch size that is not positive *)

(** X21: with a batch size of zero or less the test [len(q) >= batch_size]
    always passes, so an iteration that leaves the queue empty, for want of
    a new document, aborts the generator with the [IndexError] of [pop] on
    an empty deque. *)
Theorem nonpositive_batch_size_aborts
  (batch_size : Z) (st : state) (status : string) (hits : Z)
  (docs : list dict) (ids : list scalar) (rest : list response) :
  batch_size <= 0 ->
  status <> "ERROR" -> hits <> 0 ->
  page_num st + 1 < page_ceiling ->
  add_docs docs (article_id_set st) (q st) = Ok (ids, []) ->
  run batch_size (Reply status hits docs :: rest) st
  = ([EGet (current_date_lower_bound st) (page_num st)],
     Aborted (IndexError PopFromEmptyDeque)).
Proof.
  intros Hbs Hs Hh Hp Hadd. cbn [run]. unfold iteration.
  destruct (String.eqb_spec status "ERROR"); [contradiction|].
  destruct (Z.eqb_spec hits 0); [contradiction|].
  rewrite Hadd.
  destruct (Z.geb_spec (page_num st + 1) page_ceiling); [lia|].
  simpl List.length.
  destruct (Z.geb_spec (Z.of_nat 0) batch_size); [|simpl in *; lia].
  reflexivity.
Qed.

Lemma nonpositive_batch_size_aborts_witness :
  run 0 [Reply "OK" 5 [doc_a]; Reply "OK" 5 [doc_a]; Reply "OK" 5 [doc_b]]
      initial_state
  = ([EGet (VScalar (SStr "0000-01-01")) 0;
      EYield [flatten doc_a ""]; ESleep 12;
      EGet (VScalar (SStr "0000-01-01")) 1],
     Aborted (IndexError PopFromEmptyDeque))
  /\
  run 0 [Reply "OK" 5 [doc_a]; Reply "OK" 5 [doc_b]]
      (mkState (VScalar (SStr "0000-01-01")) 1 [SStr "a"] [])
  = ([EGet (VScalar (SStr "0000-01-01")) 1],
     Aborted (IndexError PopFromEmptyDeque)).
Proof.
  split; [vm_compute; reflexivity|].
  assert (Hs : "OK" <> "ERROR") by discriminate.
  assert (Hh : 5 <> 0) by lia.
  apply (nonpositive_batch_size_aborts 0
           (mkState (VScalar (SStr "0000-01-01")) 1 [SStr "a"] [])
           "OK" 5 [doc_a] [SStr "a"] [Reply "OK" 5 [doc_b]]);
    try assumption; try reflexivity; simpl; unfold page_ceiling; lia.
Defined.

(** ** The empty key *)

Lemma get_rev_nodup (d : dict) (k : string) :
  NoDup (keys d) -> get (rev d) k = get d k.
Proof.
  intros Hnd. destruct (get d k) as [v|] eqn:Hg.
  - apply get_in in Hg. apply get_in_unique.
    + apply -> in_rev. exact Hg.
    + intros v' Hv'. apply in_rev in Hv'.
      eapply nodup_keys_functional; eassumption.
  - destruct (get (rev d) k) as [v|] eqn:Hr; [|reflexivity].
    apply get_in in Hr. apply in_rev in Hr.
    apply (in_map fst) in Hr. apply in_keys_get in Hr.
    destruct Hr as [w Hw]. simpl in Hw. congruence.
Qed.

(** X22: the empty key is transparent.  A mapping under the key [""] at the
    top of a document is flattened as though its entries stood in its
    place: [flatten] gives every key the same value on both, so an entry of
    that mapping can replace a top-level entry of the same name. *)
Theorem flatten_empty_key_is_transparent
  (d1 sub d2 : dict) (k : string) :
  get (flatten (d1 ++ ("", VDict sub) :: d2) "") k
  = get (flatten (d1 ++ sub ++ d2) "") k.
Proof.
  rewrite !flatten_eq, !get_dict_of_items.
  rewrite !flatten_items_app, flatten_items_dict, new_key_of_empty.
  rewrite !rev_app_distr, !get_app.
  rewrite flatten_eq.
  rewrite (get_rev_nodup (dict_of_items (flatten_items sub "")))
    by apply dict_of_items_keys_nodup.
  rewrite get_dict_of_items. reflexivity.
Qed.

Lemma page_always_below_ceiling_witness :
  exists st,
    snd (getDataBatch 10 (repeat (Reply "OK" 5000 [doc_a; doc_b]) 250))
    = Running st /\
    0 <= page_num st <= 99.
Proof.
  eexists. split; [vm_compute; reflexivity|].
  apply (page_always_below_ceiling 10
           (repeat (Reply "OK" 5000 [doc_a; doc_b]) 250)).
  vm_compute. reflexivity.
Defined.

(** ** Faults before a page of documents *)

Lemma fresh_ids_spec (docs : list dict) :
  forall seen,
    fresh_ids seen docs = true ->
    forallb has_id docs = true /\ new_docs seen docs = docs.
Proof.
  induction docs as [|doc docs IH]; intros seen; simpl.
  - intros _. split; reflexivity.
  - unfold has_id. destruct (doc_id doc) as [i|e]; [|discriminate].
    intros H. apply andb_prop in H. destruct H as [Hi Hrest].
    apply negb_true_iff in Hi. rewrite Hi.
    destruct (IH _ Hrest) as [Hids Hnew]. rewrite Hnew. simpl.
    split; [exact Hids | reflexivity].
Qed.

(** The loop over documents that are all new puts the record of each on the
    queue. *)
Lemma add_docs_fresh (docs : list dict) (ids : list scalar) (q0 : deque) :
  fresh_ids ids docs = true ->
  exists ids1,
    add_docs docs ids q0
    = Ok (ids1, rev (map (fun d => flatten d "") docs) ++ q0).
Proof.
  intros H. destruct (fresh_ids_spec docs ids H) as [Hids Hnew].
  destruct (add_docs_ok docs Hids ids q0) as (ids1 & q1 & Hadd).
  destruct (add_docs_exact _ _ _ _ _ Hadd) as (Hq & _ & _).
  rewrite Hnew in Hq. exists ids1. rewrite Hadd, Hq. reflexivity.
Qed.

(** The first iteration of the generator on a page of new documents. *)
Lemma iteration_first_page
  (bs : Z) (status : string) (hits : Z) (docs : list dict) :
  status <> "ERROR" -> hits <> 0 -> fresh_ids [] docs = true ->
  exists ids,
    (1 <= bs <= Z.of_nat (List.length docs) ->
     iteration bs initial_state (Reply status hits docs) =
     ([EGet (VScalar (SStr "0000-01-01")) 0;
       EYield (firstn (taken bs) (rev (map (fun d => flatten d "") docs)));
       ESleep cooldown],
      Continue
        (mkState (VScalar (SStr "0000-01-01")) 1 ids
           (skipn (taken bs) (rev (map (fun d => flatten d "") docs))))))
    /\
    (Z.of_nat (List.length docs) < bs ->
     iteration bs initial_state (Reply status hits docs) =
     ([EGet (VScalar (SStr "0000-01-01")) 0; ESleep cooldown],
      Continue
        (mkState (VScalar (SStr "0000-01-01")) 1 ids
           (rev (map (fun d => flatten d "") docs))))).
Proof.
  intros Hs Hh Hfresh.
  destruct (add_docs_fresh docs [] [] Hfresh) as [ids Hadd].
  rewrite app_nil_r in Hadd. exists ids.
  assert (Hlen : List.length (rev (map (fun d => flatten d "") docs))
                 = List.length docs).
  { rewrite length_rev, length_map. reflexivity. }
  split; intros Hbs; unfold iteration;
    destruct (String.eqb_spec status "ERROR"); try contradiction;
    destruct (Z.eqb_spec hits 0); try contradiction;
    simpl article_id_set; simpl q; rewrite Hadd; simpl; rewrite Hlen.
  - destruct (Z.geb_spec (Z.of_nat (List.length docs)) bs); [|lia].
    rewrite getn_ok; [reflexivity | | rewrite Hlen; lia].
    intros Hnil. rewrite Hnil in Hlen. simpl in Hlen. lia.
  - destruct (Z.geb_spec (Z.of_nat (List.length docs)) bs); [lia|].
    reflexivity.
Qed.

(** C6, as the code has it: a fault response costs one request and one
    sleep of 12 and leaves the date bound, the page cursor, the seen set and
    the buffer as they were, so the next request is the same one; no other
    sleep follows in that iteration.  A run that meets faults before the
    responses [rest] does what the run on [rest] does, after one such
    request and sleep per fault: same batches, same end.  After the faults,
    a reply of new documents is buffered whole: when it brings at least
    [batch_size] documents, one batch of [batch_size] of them is yielded and
    the others wait in the buffer, none lost and none twice, and all of them
    are yielded when it brings exactly [batch_size]; when it brings fewer,
    nothing is yielded and they all wait in the buffer. *)
Theorem fault_is_retried
  (batch_size : Z) (st : state) (fs : list value) (rest : list response) :
  (forall f,
      iteration batch_size st (Fault f) =
      ([EGet (current_date_lower_bound st) (page_num st);
        EPrint (MsgFault f); ESleep 12], Continue st)) /\
  run batch_size (map Fault fs ++ rest) st =
  (fault_events st fs ++ fst (run batch_size rest st),
   snd (run batch_size rest st)) /\
  sleeps (fault_events st fs) = repeat 12 (List.length fs) /\
  requests (fault_events st fs) =
  repeat (current_date_lower_bound st, page_num st) (List.length fs) /\
  batches (fst (run batch_size (map Fault fs ++ rest) st)) =
  batches (fst (run batch_size rest st)) /\
  (run batch_size (map Fault fs) st = (fault_events st fs, Running st) /\
   sleeps (fst (run batch_size (map Fault fs) st))
   = repeat 12 (List.length fs) /\
   requests (fst (run batch_size (map Fault fs) st))
   = repeat (current_date_lower_bound st, page_num st) (List.length fs)) /\
  (forall status hits docs,
      status <> "ERROR" -> hits <> 0 -> fresh_ids [] docs = true ->
      1 <= batch_size <= Z.of_nat (List.length docs) ->
      exists batch st',
        getDataBatch batch_size (map Fault fs ++ [Reply status hits docs])
        = (fault_events initial_state fs ++
           [EGet (VScalar (SStr "0000-01-01")) 0; EYield batch; ESleep 12],
           Running st') /\
        Z.of_nat (List.length batch) = batch_size /\
        Permutation (batch ++ q st') (map (fun d => flatten d "") docs) /\
        (batch_size = Z.of_nat (List.length docs) ->
         q st' = [] /\
         Permutation batch (map (fun d => flatten d "") docs))) /\
  (forall status hits docs,
      status <> "ERROR" -> hits <> 0 -> fresh_ids [] docs = true ->
      Z.of_nat (List.length docs) < batch_size ->
      exists st',
        getDataBatch batch_size (map Fault fs ++ [Reply status hits docs])
        = (fault_events initial_state fs ++
           [EGet (VScalar (SStr "0000-01-01")) 0; ESleep 12],
           Running st') /\
        Permutation (q st') (map (fun d => flatten d "") docs)).
Proof.
  assert (Hrun : run batch_size (map Fault fs) st
                 = (fault_events st fs, Running st)).
  { pose proof (run_faults batch_size fs [] st) as H.
    rewrite !app_nil_r in H. exact H. }
  split; [intros f; apply iteration_fault|].
  split; [apply run_faults|].
  split; [apply fault_events_sleeps|].
  split; [apply fault_events_requests|].
  split; [rewrite run_faults; simpl;
          rewrite batches_app, fault_events_batches; reflexivity|].
  split; [rewrite Hrun; simpl; split; [reflexivity|];
          split; [apply fault_events_sleeps | apply fault_events_requests]|].
  split.
  - intros status hits docs Hs Hh Hfresh Hbs.
    destruct (iteration_first_page batch_size status hits docs Hs Hh Hfresh)
      as (ids & Hyield & _).
    specialize (Hyield Hbs).
    unfold getDataBatch. rewrite run_faults. cbn [run]. rewrite Hyield.
    simpl fst. simpl snd.
    assert (Hlen : List.length (rev (map (fun d => flatten d "") docs))
                   = List.length docs).
    { rewrite length_rev, length_map. reflexivity. }
    assert (Htaken : taken batch_size = Z.to_nat batch_size)
      by (unfold taken; lia).
    eexists. eexists. split; [reflexivity|]. simpl q.
    split; [|split].
    + rewrite firstn_length_le by (rewrite Hlen, Htaken; lia).
      rewrite Htaken. lia.
    + rewrite firstn_skipn. symmetry. apply Permutation_rev.
    + intros Heq.
      assert (Hall : taken batch_size
                     = List.length (rev (map (fun d => flatten d "") docs)))
        by (rewrite Hlen, Htaken; lia).
      rewrite Hall, skipn_all, firstn_all.
      split; [reflexivity|]. symmetry. apply Permutation_rev.
  - intros status hits docs Hs Hh Hfresh Hbs.
    destruct (iteration_first_page batch_size status hits docs Hs Hh Hfresh)
      as (ids & _ & Hnone).
    specialize (Hnone Hbs).
    unfold getDataBatch. rewrite run_faults. cbn [run]. rewrite Hnone.
    simpl fst. simpl snd.
    eexists. split; [reflexivity|]. simpl q.
    symmetry. apply Permutation_rev.
Qed.

Lemma fault_is_retried_witness :
  "OK" <> "ERROR" /\ 10 <> 0 /\ fresh_ids [] ten_docs = true /\
  1 <= 10 <= Z.of_nat (List.length ten_docs) /\
  exists batch st',
    getDataBatch 10 (map Fault [sample_fault; sample_fault]
                     ++ [Reply "OK" 10 ten_docs])
    = (fault_events initial_state [sample_fault; sample_fault] ++
       [EGet (VScalar (SStr "0000-01-01")) 0; EYield batch; ESleep 12],
       Running st') /\
    Z.of_nat (List.length batch) = 10 /\
    q st' = [] /\
    Permutation batch (map (fun d => flatten d "") ten_docs).
Proof.
  assert (Hs : "OK" <> "ERROR") by discriminate.
  assert (Hh : 10 <> 0) by lia.
  assert (Hf : fresh_ids [] ten_docs = true) by reflexivity.
  assert (Hb : 1 <= 10 <= Z.of_nat (List.length ten_docs)) by (simpl; lia).
  split; [exact Hs|]. split; [exact Hh|]. split; [exact Hf|].
  split; [exact Hb|].
  destruct (fault_is_retried 10 initial_state [sample_fault; sample_fault] [])
    as (_ & _ & _ & _ & _ & _ & Hyield & _).
  destruct (Hyield "OK" 10 ten_docs Hs Hh Hf Hb)
    as (batch & st' & Hrun & Hlen & _ & Hall).
  destruct (Hall eq_refl) as [Hq Hperm].
  exists batch, st'. repeat split; assumption.
Defined.

(** C6 as stated fails on a reply that brings fewer documents than a batch:
    after two faults, five new documents at a batch size of 10 are not
    yielded, and they are not yielded either when the source then reports
    the end of the results. *)
Lemma faults_then_few_documents_counterexample :
  fresh_ids [] five_docs = true /\
  batches (fst (getDataBatch 10 (map Fault [sample_fault; sample_fault]
                                 ++ [Reply "OK" 5 five_docs]))) = [] /\
  batches (fst (getDataBatch 10 (map Fault [sample_fault; sample_fault]
                                 ++ [Reply "OK" 5 five_docs;
                                     Reply "OK" 0 []]))) = [] /\
  snd (getDataBatch 10 (map Fault [sample_fault; sample_fault]
                        ++ [Reply "OK" 5 five_docs; Reply "OK" 0 []]))
  = Exhausted.
Proof.
  split; [reflexivity|].
  split; [vm_compute; reflexivity|].
  split; vm_compute; reflexivity.
Qed.
